(** * Session-based co-occurrence recommender (RIC demo)

    A shallow embedding of [src/RIC_demo/run_ric_demo.py]:

    - the Cypher query of [get_ric_confidence_scores], read clause by clause
      over a small model of the historical event graph;
    - the pandas operations the recommender relies on ([DataFrame],
      [set_index], the column product, [.loc] read-modify-write, [drop],
      [sort_values], [head]);
    - [UserSessionRecommender] and its [update_recommendations] method, in a
      state-and-exception monad over the recommender object.

    Numbers.  Python floats are modelled by canonical rationals [Qc]: the
    arithmetic below is exact, so binary64 rounding is outside this model.
    Equality on [Qc] is Leibniz equality, which lets weight vectors be
    compared with [=]. *)

From Stdlib Require Import List String Bool Arith ZArith QArith Qcanon.
From Stdlib Require Import Lia Lqa Permutation Sorted.
Import ListNotations.

Local Open Scope string_scope.
Local Open Scope list_scope.

(** * The program *)

(** ** Exceptions and results *)

(** The exceptions the modelled code can raise: pandas' [KeyError] (with
    its argument: the missing label for [.loc], a message for
    [set_index]) and an error of the neo4j driver (connectivity,
    authentication, time-out), with its message. *)
Inductive exn : Type :=
| KeyError (label : string)
| DriverError (msg : string).

Inductive result (A : Type) : Type :=
| Ok (a : A)
| Raise (e : exn).
Arguments Ok {A} a.
Arguments Raise {A} e.

Definition is_ok {A} (r : result A) : bool :=
  match r with Ok _ => true | Raise _ => false end.

(** ** Rational helpers *)

Definition Qc_eqb (x y : Qc) : bool := Qeq_bool x y.
Definition Qc_leb (x y : Qc) : bool := Qle_bool x y.

(** A row of an indexed one-column frame: the index label and the value. *)
Definition Row : Type := string * Qc.

Definition row_eqb (r1 r2 : Row) : bool :=
  String.eqb (fst r1) (fst r2) && Qc_eqb (snd r1) (snd r2).

Fixpoint rows_eqb (l1 l2 : list Row) : bool :=
  match l1, l2 with
  | [], [] => true
  | r1 :: l1', r2 :: l2' => row_eqb r1 r2 && rows_eqb l1' l2'
  | _, _ => false
  end.

(** A decimal [n / d] as a weight. *)
Definition dec (n : Z) (d : positive) : Qc := Q2Qc (n # d).

(** Sorting rows by descending value, as [ORDER BY ... DESC] and
    [sort_values(ascending=False)] do.  Neither fixes the order of rows
    with equal values; the model is an insertion sort that keeps such rows
    in their original order ([r] is placed before the first row whose
    value does not exceed its own). *)
Fixpoint insert_desc (r : Row) (l : list Row) : list Row :=
  match l with
  | [] => [r]
  | r' :: l' =>
      if Qc_leb (snd r') (snd r)
      then r :: l
      else r' :: insert_desc r l'
  end.

Definition sort_desc (l : list Row) : list Row :=
  fold_right insert_desc [] l.

(** Rows in descending order of their value. *)
Definition desc (r1 r2 : Row) : Prop := (snd r2 <= snd r1)%Qc.

(** ** pandas *)

Module pd.

(** An indexed frame with a single numeric column, in row order: the
    session weights (index [tool], column [weight]) and the indexed
    confidence scores (index [recommendedTool], column
    [confidence_score]). *)
Definition Frame : Type := list Row.

(** The frame [pd.DataFrame(records)] built from the list of record dicts
    of [get_ric_confidence_scores].  Its columns are the keys of the
    dicts: a non-empty list gives the two columns, the empty list gives a
    frame with no column at all. *)
Record RecordFrame : Type := mkRecordFrame {
  columns : list string;
  records : list Row
}.

Definition DataFrame (recs : list Row) : RecordFrame :=
  match recs with
  | [] => mkRecordFrame [] []
  | _ :: _ => mkRecordFrame ["recommendedTool"; "confidence_score"] recs
  end.

(** [df.set_index(key)]: when [key] is not a column pandas raises
    [KeyError("None of ['key'] are in the columns")].  The only key the
    program uses is ["recommendedTool"], whose values become the index
    labels of the remaining [confidence_score] column. *)
Definition set_index (key : string) (df : RecordFrame) : result Frame :=
  if existsb (String.eqb key) (columns df)
  then Ok (records df)
  else Raise (KeyError (String.concat "" ["None of ['"; key;
                                          "'] are in the columns"])).

(** [df['weight'] *= a]: every row of the column is multiplied by [a]. *)
Definition imul (a : Qc) (df : Frame) : Frame :=
  map (fun r : Row => (fst r, (snd r * a)%Qc)) df.

Definition has_label (label : string) (df : Frame) : bool :=
  existsb (fun r : Row => String.eqb (fst r) label) df.

(** [df.loc[label, 'weight'] += x] is a read followed by a write.  The
    read raises [KeyError] when no row carries [label], so the write
    never enlarges the frame; otherwise every row labelled [label] is
    incremented. *)
Definition loc_iadd (label : string) (x : Qc) (df : Frame) : result Frame :=
  if has_label label df
  then Ok (map (fun r : Row =>
                  if String.eqb (fst r) label then (fst r, (snd r + x)%Qc) else r) df)
  else Raise (KeyError label).

(** [df.drop(label, errors='ignore')]: the rows labelled [label] are
    removed; a missing label is not an error. *)
Definition drop (label : string) (df : Frame) : Frame :=
  filter (fun r : Row => negb (String.eqb (fst r) label)) df.

(** [df.sort_values('weight', ascending=False)].  pandas does not fix the
    order of rows with equal values; the model keeps them in their
    original order (see [sort_desc]). *)
Definition sort_values (df : Frame) : Frame := sort_desc df.

Definition head (n : nat) (df : Frame) : Frame := firstn n df.

Definition index (df : Frame) : list string := map fst df.

End pd.

(** ** The historical event graph and the confidence query *)

(** The part of the property graph the query reads: the [Tool] nodes and
    the [EXECUTED] and [IN_SESSION] relationships leaving the [Job] nodes.
    The seeder creates every node with [MERGE] on its [id], so a node is
    identified with its id.  Nothing here forces a job to have one tool and
    one session: the query is read on whatever edges there are. *)
Record Graph : Type := mkGraph {
  tools : list string;
  EXECUTED : list (string * string);    (* (job, tool) *)
  IN_SESSION : list (string * string)   (* (job, session) *)
}.

(** A relationship ends at a node of the graph: every executed tool is a
    [Tool] node. *)
Definition well_formed (g : Graph) : bool :=
  forallb (fun e => existsb (String.eqb (snd e)) (tools g)) (EXECUTED g).

Module cypher.

Definition distinct : list string -> list string := nodup string_dec.

Definition key_dec (k1 k2 : nat * string) : {k1 = k2} + {k1 <> k2}.
Proof. decide equality; [apply string_dec | apply Nat.eq_dec]. Defined.

(** [MATCH (lastTool:Tool {id: lastToolId})]: the bindings of
    [lastTool]. *)
Definition match_last_tool (g : Graph) (lastToolId : string) : list string :=
  filter (String.eqb lastToolId) (tools g).

(** [MATCH (lastTool)<-[:EXECUTED]-(:Job)-[:IN_SESSION]->(s:Session)]:
    the bindings of [s] for one [lastTool], one per pair of edges sharing
    their job. *)
Definition match_sessions (g : Graph) (lastTool : string) : list string :=
  flat_map (fun e : string * string =>
              if String.eqb (snd e) lastTool
              then map snd (filter (fun i : string * string =>
                                      String.eqb (fst i) (fst e)) (IN_SESSION g))
              else [])
           (EXECUTED g).

(** The rows [(lastTool, s)] after the two [MATCH] clauses. *)
Definition rows_last_tool_sessions (g : Graph) (lastToolId : string)
  : list (string * string) :=
  flat_map (fun lt => map (pair lt) (match_sessions g lt))
           (match_last_tool g lastToolId).

(** [WITH COLLECT(DISTINCT s) AS sessions_with_last_tool, lastTool]:
    one row per value of the grouping key [lastTool]; no input row, no
    group. *)
Definition collect_sessions (rows : list (string * string))
  : list (list string * string) :=
  map (fun lt =>
         (distinct (map snd (filter (fun r : string * string =>
                                       String.eqb (fst r) lt) rows)), lt))
      (distinct (map fst rows)).

(** [WITH size(sessions_with_last_tool) AS last_tool_session_count, ...]
    and [UNWIND sessions_with_last_tool AS s]: rows
    [(last_tool_session_count, s, lastTool)]. *)
Definition unwind_sessions (groups : list (list string * string))
  : list (nat * string * string) :=
  flat_map (fun grp : list string * string =>
              map (fun s => (List.length (fst grp), s, snd grp)) (fst grp))
           groups.

(** [MATCH (s)<-[:IN_SESSION]-(:Job)-[:EXECUTED]->(otherTool:Tool)
     WHERE otherTool <> lastTool]: the bindings of [otherTool] for one
    session. *)
Definition match_other_tools (g : Graph) (s lastTool : string) : list string :=
  flat_map (fun i : string * string =>
              if String.eqb (snd i) s
              then map snd (filter (fun e : string * string =>
                                      String.eqb (fst e) (fst i)
                                      && negb (String.eqb (snd e) lastTool))
                                   (EXECUTED g))
              else [])
           (IN_SESSION g).

(** The rows [(last_tool_session_count, s, otherTool)]. *)
Definition rows_other_tools (g : Graph) (rows : list (nat * string * string))
  : list (nat * string * string) :=
  flat_map (fun r : nat * string * string =>
              let '(n, s, lt) := r in
              map (fun t => (n, s, t)) (match_other_tools g s lt))
           rows.

(** [WITH last_tool_session_count, otherTool,
          count(DISTINCT s) AS joint_session_count]: one row per value of
    the grouping key [(last_tool_session_count, otherTool)]. *)
Definition count_joint_sessions (rows : list (nat * string * string))
  : list (nat * string * nat) :=
  map (fun k : nat * string =>
         (k, List.length (distinct
               (map (fun r : nat * string * string => snd (fst r))
                    (filter (fun r : nat * string * string =>
                               if key_dec (fst (fst r), snd r) k then true else false)
                            rows)))))
      (nodup key_dec (map (fun r : nat * string * string => (fst (fst r), snd r)) rows)).

(** [toFloat(joint_session_count) / last_tool_session_count]. *)
Definition confidence (joint n : nat) : Qc :=
  Q2Qc (inject_Z (Z.of_nat joint) / inject_Z (Z.of_nat n)).

(** [RETURN otherTool.id AS recommendedTool, ... AS confidence_score]. *)
Definition return_rows (rows : list (nat * string * nat)) : list Row :=
  map (fun r : nat * string * nat =>
         (snd (fst r), confidence (snd r) (fst (fst r))))
      rows.

(** The whole query:
    [... ORDER BY confidence_score DESC LIMIT 10]. *)
Definition scored (g : Graph) (lastToolId : string) : list Row :=
  return_rows
    (count_joint_sessions
       (rows_other_tools g
          (unwind_sessions
             (collect_sessions (rows_last_tool_sessions g lastToolId))))).

Definition query (g : Graph) (lastToolId : string) : list Row :=
  firstn 10 (sort_desc (scored g lastToolId)).

End cypher.

(** ** The store *)

(** What [session.run(query, last_tool_id=...)] hands back for the
    confidence query: the rows [(recommendedTool, confidence_score)], or an
    exception of the driver. *)
Definition Driver : Type := string -> result (list Row).

(** [get_ric_confidence_scores(driver, last_tool_id)]: the rows are read
    into a list of record dicts (the empty list when there is none) and
    wrapped in a [DataFrame]; an exception of the driver is not caught. *)
Definition get_ric_confidence_scores (driver : Driver) (last_tool_id : string)
  : result pd.RecordFrame :=
  match driver last_tool_id with
  | Raise e => Raise e
  | Ok recs => Ok (pd.DataFrame recs)
  end.

(** A driver connected to a store holding the graph [g]. *)
Definition neo4j (g : Graph) : Driver :=
  fun last_tool_id => Ok (cypher.query g last_tool_id).

(** A driver whose store cannot be reached. *)
Definition unavailable (msg : string) : Driver :=
  fun _ => Raise (DriverError msg).

(** ** The recommender object and its monad *)

Record UserSessionRecommender : Type := mkRecommender {
  driver : Driver;
  alpha : Qc;
  session_weights : pd.Frame
}.

(** [UserSessionRecommender(driver, all_tool_ids, alpha)]: one row per
    element of [all_tool_ids], in that order, with weight [0.0]. *)
Definition init (drv : Driver) (all_tool_ids : list string) (a : Qc)
  : UserSessionRecommender :=
  mkRecommender drv a (map (fun t => (t, 0%Qc)) all_tool_ids).

(** The default [alpha = 0.3]. *)
Definition default_alpha : Qc := Q2Qc (3 # 10).

(** A method body: it runs on the object, returns a value or raises, and
    leaves the object as it was at that point (an exception does not undo
    earlier assignments). *)
Definition M (A : Type) : Type :=
  UserSessionRecommender -> result A * UserSessionRecommender.

Definition ret {A} (a : A) : M A := fun self => (Ok a, self).

Definition bind {A B} (m : M A) (f : A -> M B) : M B :=
  fun self =>
    match m self with
    | (Ok a, self') => f a self'
    | (Raise e, self') => (Raise e, self')
    end.

Definition lift {A} (r : result A) : M A := fun self => (r, self).

Definition gets {A} (f : UserSessionRecommender -> A) : M A :=
  fun self => (Ok (f self), self).

Definition set_weights (w : pd.Frame) : M unit :=
  fun self => (Ok tt, mkRecommender (driver self) (alpha self) w).

Declare Scope method_scope.
Delimit Scope method_scope with method.
Notation "x <- m ;; k" := (bind m (fun x => k))
  (at level 61, m at next level, right associativity) : method_scope.
Notation "m ;; k" := (bind m (fun _ => k))
  (at level 61, right associativity) : method_scope.
Local Open Scope method_scope.

(** [for tool, row in confidence_scores.iterrows(): body]. *)
Fixpoint for_iterrows (rows : list Row) (body : Row -> M unit) : M unit :=
  match rows with
  | [] => ret tt
  | r :: rows' => body r ;; for_iterrows rows' body
  end.

(** The body of the blend loop:
    [new_score = (1 - self.alpha) * row['confidence_score']] and
    [self.session_weights.loc[tool, 'weight'] += new_score]. *)
Definition blend_row (r : Row) : M unit :=
  a <- gets alpha ;;
  let new_score := ((1 - a) * snd r)%Qc in
  w <- gets session_weights ;;
  w' <- lift (pd.loc_iadd (fst r) new_score w) ;;
  set_weights w'.

(** [update_recommendations(self, last_tool_run)]. *)
Definition update_recommendations (last_tool_run : string) : M pd.Frame :=
  drv <- gets driver ;;
  df <- lift (get_ric_confidence_scores drv last_tool_run) ;;
  confidence_scores <- lift (pd.set_index "recommendedTool" df) ;;
  a <- gets alpha ;;
  w <- gets session_weights ;;
  set_weights (pd.imul a w) ;;
  for_iterrows confidence_scores blend_row ;;
  w <- gets session_weights ;;
  let recommendations := pd.drop last_tool_run w in
  ret (pd.head 5 (pd.sort_values recommendations)).

(** The object after a call, and the value returned. *)
Definition state_after {A} (m : M A) (self : UserSessionRecommender)
  : UserSessionRecommender := snd (m self).
Definition outcome {A} (m : M A) (self : UserSessionRecommender)
  : result A := fst (m self).

(** A sequence of calls [update_recommendations(t1)], ..., each on the
    object the previous one left, whether it returned or raised (the
    caller may catch the exception and go on). *)
Definition run_steps (steps : list string) (self : UserSessionRecommender)
  : UserSessionRecommender :=
  fold_left (fun s t => state_after (update_recommendations t) s) steps self.

(** ** Auxiliary functions for the statements *)

(** The value pandas reads at [df.loc[label, 'weight']] when the label is
    carried by one row: the weight of a tool in the session vector. *)
Fixpoint weight_of (label : string) (df : pd.Frame) : option Qc :=
  match df with
  | [] => None
  | r :: df' => if String.eqb (fst r) label then Some (snd r) else weight_of label df'
  end.

(** The sum of the scores a scorer result gives to one tool (a single
    score when the tool is listed once, [0] when it is not listed). *)
Fixpoint score_sum (label : string) (scores : list Row) : Qc :=
  match scores with
  | [] => 0%Qc
  | r :: scores' =>
      if String.eqb (fst r) label
      then (snd r + score_sum label scores')%Qc
      else score_sum label scores'
  end.

(** The closed form of the blend loop: every row gains [(1 - a)] times the
    scores listed for its label. *)
Definition blended (a : Qc) (scores : list Row) (w : pd.Frame) : pd.Frame :=
  map (fun r : Row => (fst r, (snd r + (1 - a) * score_sum (fst r) scores)%Qc)) w.

(** The tools of a scorer result all label a row of the weights [w]. *)
Definition in_catalog (w : pd.Frame) (scores : list Row) : Prop :=
  forall r, In r scores -> In (fst r) (pd.index w).

(** ** The confidence query against the specification's words *)

(** The specification's definitions, for comparison with the query.  A
    session contains a job executing [t]; [S] is the set of sessions
    containing a job executing [lastTool]; [n = |S|]; [m(t)] is the number
    of sessions of [S] that also contain a job executing [t]. *)
Definition session_contains (g : Graph) (s t : string) : bool :=
  existsb (fun i : string * string =>
             String.eqb (snd i) s
             && existsb (fun e : string * string =>
                           String.eqb (fst e) (fst i) && String.eqb (snd e) t)
                        (EXECUTED g))
          (IN_SESSION g).

Definition spec_S (g : Graph) (lastTool : string) : list string :=
  filter (fun s => session_contains g s lastTool)
         (nodup string_dec (map snd (IN_SESSION g))).

Definition spec_n (g : Graph) (lastTool : string) : nat :=
  List.length (spec_S g lastTool).

Definition spec_m (g : Graph) (lastTool t : string) : nat :=
  List.length (filter (fun s => session_contains g s t) (spec_S g lastTool)).

Definition spec_score (g : Graph) (lastTool t : string) : Qc :=
  cypher.confidence (spec_m g lastTool t) (spec_n g lastTool).

(** The sessions that contain both a job executing [a] and a job
    executing [b]. *)
Definition sessions_with_both (g : Graph) (a b : string) : list string :=
  filter (fun s => session_contains g s a && session_contains g s b)
         (nodup string_dec (map snd (IN_SESSION g))).

(** ** Inputs used in examples *)

(** The scripted scorer: [A -> [(B, 0.8), (C, 0.4)]],
    [B -> [(A, 0.5), (D, 0.2)]], and no row for any other tool. *)
Definition scenario_driver : Driver :=
  fun last_tool_id =>
    if String.eqb last_tool_id "A"
    then Ok [("B", dec 8 10); ("C", dec 4 10)]
    else if String.eqb last_tool_id "B"
    then Ok [("A", dec 5 10); ("D", dec 2 10)]
    else Ok [].

Definition scenario_start : UserSessionRecommender :=
  init scenario_driver ["A"; "B"; "C"; "D"] default_alpha.

Definition scenario_step1 : UserSessionRecommender :=
  state_after (update_recommendations "A") scenario_start.

Definition scenario_step2 : UserSessionRecommender :=
  state_after (update_recommendations "B") scenario_step1.

(** Checking a returned frame, or a weight vector, by computation. *)
Definition returns (r : result pd.Frame) (expected : pd.Frame) : bool :=
  match r with
  | Ok df => rows_eqb df expected
  | Raise _ => false
  end.

(** A small event graph: three sessions over the tools [A]..[D], with [B]
    run twice in session [s1], and a tool [E] that no job ever executed. *)
Definition demo_graph : Graph :=
  mkGraph ["A"; "B"; "C"; "D"; "E"]
          [("j1", "A"); ("j2", "B"); ("j3", "B"); ("j4", "A");
           ("j5", "C"); ("j6", "A"); ("j7", "D"); ("j8", "B")]
          [("j1", "s1"); ("j2", "s1"); ("j3", "s1"); ("j4", "s2");
           ("j5", "s2"); ("j6", "s2"); ("j7", "s3"); ("j8", "s3")].

(** A scorer whose result lists the catalog tool [B] and then the unknown
    tool [Z], and a session in which [B] and [C] already have weight. *)
Definition stray_driver : Driver :=
  fun _ => Ok [("B", dec 1 2); ("Z", dec 1 1)].

Definition stray_session : UserSessionRecommender :=
  mkRecommender stray_driver default_alpha
    [("A", dec 0 1); ("B", dec 56 100); ("C", dec 28 100); ("D", dec 0 1)].

(** A session whose store cannot be reached, with weights already set. *)
Definition offline_session : UserSessionRecommender :=
  mkRecommender (unavailable "timeout") default_alpha
    [("A", dec 1 2); ("B", dec 1 4)].

(** A session over seven tools with distinct weights, scored by a store
    that always answers [(B, 0.5)]. *)
Definition wide_session : UserSessionRecommender :=
  mkRecommender (fun _ => Ok [("B", dec 1 2)]) default_alpha
    [("A", dec 1 10); ("B", dec 2 10); ("C", dec 3 10); ("D", dec 4 10);
     ("E", dec 5 10); ("F", dec 6 10); ("G", dec 7 10)].

(** A graph in which [A] runs twice in a session of its own and [B] in
    another: neither ever shares a session with another tool. *)
Definition lonely_graph : Graph :=
  mkGraph ["A"; "B"]
          [("j1", "A"); ("j2", "A"); ("j3", "B")]
          [("j1", "s1"); ("j2", "s1"); ("j3", "s2")].

(** A scripted scorer for a catalog reduced to [A]: one row for [X], and
    for any other tool a row for [A] followed by a row for the unknown
    tool [Z]. *)
Definition half_driver : Driver :=
  fun last_tool_id =>
    if String.eqb last_tool_id "X"
    then Ok [("A", dec 1 1)]
    else Ok [("A", dec 1 2); ("Z", dec 1 1)].

Definition half_step1 : UserSessionRecommender :=
  state_after (update_recommendations "X") (init half_driver ["A"] (dec 1 2)).

(** A graph in which [MultiQC] is a tool that no job executed, while
    [FastQC] and [Trimmomatic] share a session. *)
Definition partial_galaxy_graph : Graph :=
  mkGraph ["FastQC"; "Trimmomatic"; "MultiQC"]
          [("j1", "FastQC"); ("j2", "Trimmomatic")]
          [("j1", "s1"); ("j2", "s1")].

(** A graph with the three tools of the demo run: one session runs
    [FastQC], [Trimmomatic] and [MultiQC], another [FastQC] and [BWA-MEM]. *)
Definition galaxy_graph : Graph :=
  mkGraph ["FastQC"; "Trimmomatic"; "MultiQC"; "BWA-MEM"]
          [("j1", "FastQC"); ("j2", "Trimmomatic"); ("j3", "MultiQC");
           ("j4", "FastQC"); ("j5", "BWA-MEM")]
          [("j1", "s1"); ("j2", "s1"); ("j3", "s1"); ("j4", "s2"); ("j5", "s2")].

(** ** The demo run *)

(** The two queries the program sends to the store: the catalog bootstrap
    [MATCH (t:Tool) RETURN t.id as toolId] and the confidence query. *)
Record Store : Type := mkStore {
  list_tools : result (list string);
  confidence_query : Driver
}.

(** A reachable store holding the graph [g]. *)
Definition connected (g : Graph) : Store :=
  mkStore (Ok (tools g)) (neo4j g).

(** What the main block prints, banners and captions left aside: the
    recommendations of a step, the top of the session memory, and the two
    lines of the [except] clause (the exception, then the fixed advice to
    check the credentials and the tools). *)
Inductive printed : Type :=
| Recommendations (step : nat) (df : pd.Frame)
| Memory (df : pd.Frame)
| ErrorMessage (e : exn)
| CheckSetupAdvice.

(** [except Exception as e:] and its two [print]s. *)
Definition except_clause (e : exn) : list printed :=
  [ErrorMessage e; CheckSetupAdvice].

(** One [STEP] block of the main program followed by the rest [k] of the
    [try] body: an exception skips the rest and reaches the [except]
    clause, which prints it. *)
Definition step_block (n : nat) (tool : string)
           (k : UserSessionRecommender -> list printed)
           (recommender : UserSessionRecommender) : list printed :=
  match update_recommendations tool recommender with
  | (Ok recommendations, recommender') =>
      Recommendations n recommendations
      :: Memory (pd.head 5 (pd.sort_values (session_weights recommender')))
      :: k recommender'
  | (Raise e, _) => except_clause e
  end.

(** The main block: fetch the catalog, start a session with
    [alpha = 0.3], run the three steps. *)
Definition main (store : Store) : list printed :=
  match list_tools store with
  | Raise e => except_clause e
  | Ok ALL_TOOLS =>
      step_block 1 "FastQC"
        (step_block 2 "Trimmomatic"
           (step_block 3 "MultiQC" (fun _ => [])))
        (init (confidence_query store) ALL_TOOLS default_alpha)
  end.

(** The four things the main program can print on a reachable store,
    according to the first demo tool, if any, for which the confidence
    query returns no row. *)
Inductive main_shape (g : Graph) : list printed -> Prop :=
| FailsAtStep1 :
    cypher.query g "FastQC" = [] ->
    main_shape g [ErrorMessage (KeyError "None of ['recommendedTool'] are in the columns");
                  CheckSetupAdvice]
| FailsAtStep2 r1 m1 :
    cypher.query g "FastQC" <> [] -> cypher.query g "Trimmomatic" = [] ->
    main_shape g [Recommendations 1 r1; Memory m1;
                  ErrorMessage (KeyError "None of ['recommendedTool'] are in the columns");
                  CheckSetupAdvice]
| FailsAtStep3 r1 m1 r2 m2 :
    cypher.query g "FastQC" <> [] -> cypher.query g "Trimmomatic" <> [] ->
    cypher.query g "MultiQC" = [] ->
    main_shape g [Recommendations 1 r1; Memory m1;
                  Recommendations 2 r2; Memory m2;
                  ErrorMessage (KeyError "None of ['recommendedTool'] are in the columns");
                  CheckSetupAdvice]
| Completes r1 m1 r2 m2 r3 m3 :
    cypher.query g "FastQC" <> [] -> cypher.query g "Trimmomatic" <> [] ->
    cypher.query g "MultiQC" <> [] ->
    main_shape g [Recommendations 1 r1; Memory m1;
                  Recommendations 2 r2; Memory m2;
                  Recommendations 3 r3; Memory m3].

(** ** The data seeder *)

(** [src/data_seeder/generate_data.py].  The script is a list of Cypher
    statements; each one is kept here with its parameters, and [render]
    gives the text the program formats. *)
Module seeder.

Definition NUM_USERS : nat := 10.
Definition MIN_STEPS_PER_SESSION : nat := 3.
Definition MAX_STEPS_PER_SESSION : nat := 8.

Definition TOOLS : list string :=
  ["Galaxy_Upload"; "FastQC"; "Trimmomatic"; "BWA-MEM"; "Samtools_view";
   "Samtools_sort"; "Samtools_index"; "BCFtools_mpileup"; "BCFtools_call";
   "GATK_HaplotypeCaller"; "Picard_MarkDuplicates"; "Bedtools_intersect";
   "featureCounts"; "STAR"; "HISAT2"; "Cufflinks"; "DESeq2"; "MultiQC";
   "BLASTn"; "ClustalW"; "Cut1"; "Filter_by_quality"; "ggplot2";
   "PCA_Plot"; "Python_script"].

(** What the calls to [random], [uuid] and [datetime] return, by position:
    user [i], session [j] of that user, step [k] of that session.
    [session_tools i j] is the value of [random.sample(TOOLS, num_steps)],
    whose length is the [num_steps] drawn just before it. *)
Record Draws : Type := mkDraws {
  NUM_SESSIONS_PER_USER : nat;
  user_hex : nat -> string;
  session_hex : nat -> nat -> string;
  session_tools : nat -> nat -> list string;
  timestamp_iso : nat -> nat -> nat -> string;
  job_hex : nat -> nat -> nat -> string
}.

(** What [random.randint] and [random.sample] guarantee. *)
Definition valid (d : Draws) : Prop :=
  (2 <= NUM_SESSIONS_PER_USER d <= 5)%nat
  /\ forall i j,
       (MIN_STEPS_PER_SESSION <= List.length (session_tools d i j)
        <= MAX_STEPS_PER_SESSION)%nat
       /\ NoDup (session_tools d i j)
       /\ incl (session_tools d i j) TOOLS.

Inductive command : Type :=
| MergeGalaxy
| MergeTool (tool_id : string)
| MergeUser (user_id : string)
| MergeSession (session_id user_id : string)
| CreateJob (session_id job_id timestamp : string)
| LinkTool (job_id tool_id : string)
| LinkPrecedes (previous_job_id job_id : string).

Definition render (c : command) : string :=
  match c with
  | MergeGalaxy => "MERGE (g:Galaxy {name: 'Galaxy Platform'});"
  | MergeTool tool_id =>
      String.concat "" ["MERGE (:Tool {id: '"; tool_id; "'})-[:IS_PART_OF]->(g);"]
  | MergeUser user_id =>
      String.concat "" ["MERGE (:User {id: '"; user_id; "'});"]
  | MergeSession session_id user_id =>
      String.concat "" ["MERGE (s:Session {id: '"; session_id;
                        "'})-[:BELONGS_TO]->(:User {id: '"; user_id; "'});"]
  | CreateJob session_id job_id timestamp =>
      String.concat "" ["MATCH (s:Session {id: '"; session_id;
                        "'}) MERGE (j:Job {id: '"; job_id;
                        "', timestamp: datetime('"; timestamp;
                        "')})-[:IN_SESSION]->(s);"]
  | LinkTool job_id tool_id =>
      String.concat "" ["MATCH (j:Job {id: '"; job_id; "'}), (t:Tool {id: '";
                        tool_id; "'}) MERGE (j)-[:EXECUTED]->(t);"]
  | LinkPrecedes previous_job_id job_id =>
      String.concat "" ["MATCH (prev:Job {id: '"; previous_job_id;
                        "'}), (curr:Job {id: '"; job_id;
                        "'}) MERGE (prev)-[:PRECEDES]->(curr);"]
  end.

(** Python's truth value of [previous_job_id]: [None] and the empty string
    are false. *)
Definition truthy (previous_job_id : option string) : bool :=
  match previous_job_id with
  | None => false
  | Some id => negb (String.eqb id "")
  end.

(** The body of [for k in range(num_steps)], with the tool of each step
    and the running [previous_job_id]. *)
Fixpoint job_commands (d : Draws) (i j : nat) (session_id : string)
         (steps : list (nat * string)) (previous_job_id : option string)
  : list command :=
  match steps with
  | [] => []
  | (k, tool_id) :: steps' =>
      let job_id := String.append "job_" (job_hex d i j k) in
      [CreateJob session_id job_id (timestamp_iso d i j k);
       LinkTool job_id tool_id]
      ++ (if truthy previous_job_id
          then match previous_job_id with
               | Some previous => [LinkPrecedes previous job_id]
               | None => []
               end
          else [])
      ++ job_commands d i j session_id steps' (Some job_id)
  end.

(** The steps of session [j] of user [i]: the index [k] and
    [session_tools[k]]. *)
Definition steps_of (d : Draws) (i j : nat) : list (nat * string) :=
  combine (seq 0 (List.length (session_tools d i j))) (session_tools d i j).

(** The body of [for j in range(NUM_SESSIONS_PER_USER)]. *)
Definition session_commands (d : Draws) (i : nat) (user_id : string) (j : nat)
  : list command :=
  let session_id := String.append "session_" (session_hex d i j) in
  MergeSession session_id user_id
  :: job_commands d i j session_id (steps_of d i j) None.

(** The body of [for i in range(NUM_USERS)]. *)
Definition user_commands (d : Draws) (i : nat) : list command :=
  let user_id := String.append "user_" (user_hex d i) in
  MergeUser user_id
  :: flat_map (session_commands d i user_id) (seq 0 (NUM_SESSIONS_PER_USER d)).

Definition cypher_commands (d : Draws) : list command :=
  MergeGalaxy
  :: map MergeTool TOOLS
  ++ flat_map (user_commands d) (seq 0 NUM_USERS).

Definition newline : string := String (Ascii.ascii_of_nat 10) EmptyString.

(** [generate_cypher_script()]. *)
Definition generate_cypher_script (d : Draws) : string :=
  String.concat newline (map render (cypher_commands d)).

(** Whether the nodes a statement looks up with [MATCH] were created by
    one of the statements [before] it. *)
Definition creates_session (session_id : string) (c : command) : bool :=
  match c with
  | MergeSession s _ => String.eqb s session_id
  | _ => false
  end.

Definition creates_job (job_id : string) (c : command) : bool :=
  match c with
  | CreateJob _ j _ => String.eqb j job_id
  | _ => false
  end.

Definition creates_tool (tool_id : string) (c : command) : bool :=
  match c with
  | MergeTool t => String.eqb t tool_id
  | _ => false
  end.

Definition resolves (before : list command) (c : command) : bool :=
  match c with
  | CreateJob session_id _ _ => existsb (creates_session session_id) before
  | LinkTool job_id tool_id =>
      existsb (creates_job job_id) before && existsb (creates_tool tool_id) before
  | LinkPrecedes previous_job_id job_id =>
      existsb (creates_job previous_job_id) before
      && existsb (creates_job job_id) before
  | _ => true
  end.

Fixpoint ordered_from (before commands : list command) : bool :=
  match commands with
  | [] => true
  | c :: commands' => resolves before c && ordered_from (before ++ [c]) commands'
  end.

(** Every tool of [TOOLS] has its [MERGE] among the statements. *)
Definition tools_created (before : list command) : Prop :=
  forall t, In t TOOLS -> existsb (creates_tool t) before = true.

(** The job ids of a session, in step order, and the pairs its
    [PRECEDES] statements link. *)
Definition job_ids (d : Draws) (i j : nat) : list string :=
  map (fun k => String.append "job_" (job_hex d i j k))
      (seq 0 (List.length (session_tools d i j))).

Definition precedes_pairs (commands : list command) : list (string * string) :=
  flat_map (fun c => match c with
                     | LinkPrecedes p j => [(p, j)]
                     | _ => []
                     end) commands.

Definition executed_pairs (commands : list command) : list (string * string) :=
  flat_map (fun c => match c with
                     | LinkTool j t => [(j, t)]
                     | _ => []
                     end) commands.

(** The number of jobs of the whole script. *)
Definition total_jobs (d : Draws) : nat :=
  list_sum
    (map (fun i =>
            list_sum (map (fun j => List.length (session_tools d i j))
                          (seq 0 (NUM_SESSIONS_PER_USER d))))
         (seq 0 NUM_USERS)).

(** Fixed draws for examples: ids spelled with one letter per index, and
    the same three tools in every session. *)
Definition letter (n : nat) : string :=
  String (Ascii.ascii_of_nat (97 + n)) EmptyString.

Definition sample_draws : Draws :=
  mkDraws 2
          (fun i => letter i)
          (fun i j => String.append (letter i) (letter j))
          (fun _ _ => ["FastQC"; "Trimmomatic"; "MultiQC"])
          (fun _ _ k => String.append "2024-01-01T00:0" (letter k))
          (fun i j k => String.append (letter i) (String.append (letter j) (letter k))).

End seeder.

(** ** Further auxiliary functions *)

(** A value in the closed interval [[0, 1]]. *)
Definition unit_interval (x : Qc) : Prop := (0 <= x)%Qc /\ (x <= 1)%Qc.

(** The graph [g] with one more job [j], executing [t] in session [s]. *)
Definition add_job (g : Graph) (j t s : string) : Graph :=
  mkGraph (tools g) ((j, t) :: EXECUTED g) ((j, s) :: IN_SESSION g).

(** The job [j] has no edge in [g]. *)
Definition fresh_job (g : Graph) (j : string) : Prop :=
  ~ In j (map fst (EXECUTED g)) /\ ~ In j (map fst (IN_SESSION g)).

(** * Properties *)

(** ** Rationals and rows *)

Lemma Qc_eqb_eq (x y : Qc) : Qc_eqb x y = true <-> x = y.
Proof.
  unfold Qc_eqb. rewrite Qeq_bool_iff. split.
  - apply Qc_is_canon.
  - intros ->. reflexivity.
Qed.

Lemma Qc_leb_le (x y : Qc) : Qc_leb x y = true <-> (x <= y)%Qc.
Proof. unfold Qc_leb, Qcle. apply Qle_bool_iff. Qed.

Lemma Qc_leb_gt (x y : Qc) : Qc_leb x y = false <-> (y < x)%Qc.
Proof.
  unfold Qc_leb, Qclt. split; intros H.
  - apply Qnot_le_lt. intros Hle. apply Qle_bool_iff in Hle. congruence.
  - destruct (Qle_bool x y) eqn:E; [|reflexivity].
    apply Qle_bool_iff in E. exfalso. exact (Qlt_not_le _ _ H E).
Qed.

Lemma rows_eqb_eq (l1 l2 : list Row) : rows_eqb l1 l2 = true <-> l1 = l2.
Proof.
  revert l2. induction l1 as [|[t1 w1] l1 IH]; intros [|[t2 w2] l2]; simpl;
    try (split; [discriminate | congruence]); try tauto.
  unfold row_eqb; simpl. rewrite !andb_true_iff, String.eqb_eq, Qc_eqb_eq, IH.
  split.
  - intros [[-> ->] ->]. reflexivity.
  - intros H. inversion H. auto.
Qed.

Lemma returns_eq (r : result pd.Frame) (expected : pd.Frame) :
  returns r expected = true -> r = Ok expected.
Proof.
  destruct r as [df|e]; simpl; [|discriminate].
  intros H. apply rows_eqb_eq in H. now subst.
Qed.

Ltac by_rows := apply rows_eqb_eq; vm_compute; reflexivity.
Ltac by_returns := apply returns_eq; vm_compute; reflexivity.

Lemma Qc_decay_le (w a : Qc) : (0 <= w)%Qc -> (a <= 1)%Qc -> (w * a <= w)%Qc.
Proof.
  intros Hw Ha.
  pose proof (Qcmult_le_compat_r a 1%Qc w Ha Hw) as H.
  now rewrite Qcmult_1_l, Qcmult_comm in H.
Qed.

Lemma Qc_decay_fixed (w a : Qc) : (w * a = w)%Qc -> w = 0%Qc \/ a = 1%Qc.
Proof.
  intros H.
  assert (H0 : (w * (a - 1) = 0)%Qc).
  { replace (w * (a - 1))%Qc with (w * a - w)%Qc by ring. rewrite H. ring. }
  apply Qcmult_integral in H0. destruct H0 as [H0|H0]; [now left|right].
  rewrite <- (Qcplus_0_l 1%Qc), <- H0. ring.
Qed.

(** ** Sorting *)

Lemma insert_desc_perm (r : Row) (l : list Row) :
  Permutation (insert_desc r l) (r :: l).
Proof.
  induction l as [|r' l IH]; simpl; [reflexivity|].
  destruct (Qc_leb (snd r') (snd r)); [reflexivity|].
  rewrite IH. apply perm_swap.
Qed.

Lemma sort_desc_perm (l : list Row) : Permutation (sort_desc l) l.
Proof.
  induction l as [|r l IH]; simpl; [constructor|].
  rewrite insert_desc_perm. now constructor.
Qed.

Lemma desc_trans (r1 r2 r3 : Row) : desc r1 r2 -> desc r2 r3 -> desc r1 r3.
Proof. unfold desc. intros H1 H2. eapply Qcle_trans; eassumption. Qed.

Lemma insert_desc_sorted (r : Row) (l : list Row) :
  StronglySorted desc l -> StronglySorted desc (insert_desc r l).
Proof.
  induction l as [|r' l IH]; simpl; intros Hs.
  - repeat constructor.
  - destruct (Qc_leb (snd r') (snd r)) eqn:E.
    + apply Qc_leb_le in E. constructor; [assumption|].
      inversion Hs as [|? ? _ Hall]; subst. constructor; [exact E|].
      eapply Forall_impl; [|exact Hall].
      intros r3 H3. eapply desc_trans; [exact E | exact H3].
    + apply Qc_leb_gt in E.
      inversion Hs as [|? ? Hs' Hall]; subst. constructor; [auto|].
      eapply Permutation_Forall; [symmetry; apply insert_desc_perm|].
      constructor; [|assumption].
      unfold desc. now apply Qclt_le_weak.
Qed.

Lemma sort_desc_sorted (l : list Row) : StronglySorted desc (sort_desc l).
Proof.
  induction l as [|r l IH]; simpl; [constructor|].
  now apply insert_desc_sorted.
Qed.

Lemma firstn_In {A} (n : nat) (l : list A) (x : A) :
  In x (firstn n l) -> In x l.
Proof.
  revert n. induction l as [|y l IH]; intros [|n]; simpl; try tauto.
  intros [H|H]; [now left | right; eauto].
Qed.

Lemma StronglySorted_firstn {A} (R : A -> A -> Prop) (n : nat) (l : list A) :
  StronglySorted R l -> StronglySorted R (firstn n l).
Proof.
  revert n. induction l as [|x l IH]; intros [|n] Hs; simpl; try constructor.
  - inversion Hs; subst. auto.
  - inversion Hs as [|? ? _ Hall]; subst.
    rewrite Forall_forall in *. intros y Hy. apply Hall.
    eapply firstn_In; eassumption.
Qed.

(** ** pandas operations *)

Lemma has_label_In (label : string) (df : pd.Frame) :
  pd.has_label label df = true <-> In label (pd.index df).
Proof.
  unfold pd.has_label, pd.index. rewrite existsb_exists, in_map_iff.
  split; intros [r [H1 H2]]; exists r.
  - apply String.eqb_eq in H2. tauto.
  - split; [tauto|]. apply String.eqb_eq. tauto.
Qed.

Lemma index_imul (a : Qc) (df : pd.Frame) : pd.index (pd.imul a df) = pd.index df.
Proof.
  unfold pd.index, pd.imul. rewrite map_map. reflexivity.
Qed.

Lemma index_blended (a : Qc) (scores : list Row) (df : pd.Frame) :
  pd.index (blended a scores df) = pd.index df.
Proof.
  unfold pd.index, blended. rewrite map_map. reflexivity.
Qed.

Lemma loc_iadd_index (label : string) (x : Qc) (df df' : pd.Frame) :
  pd.loc_iadd label x df = Ok df' -> pd.index df' = pd.index df.
Proof.
  unfold pd.loc_iadd. destruct (pd.has_label label df); [|discriminate].
  intros H. injection H as <-. unfold pd.index. rewrite map_map.
  apply map_ext. intros r. now destruct (String.eqb (fst r) label).
Qed.

Lemma blended_nil (a : Qc) (df : pd.Frame) : blended a [] df = df.
Proof.
  unfold blended. rewrite <- (map_id df) at 2.
  apply map_ext. intros [t w]. simpl. f_equal. ring.
Qed.

(** One more pass of the loop body extends the closed form by one row of
    the scorer result. *)
Lemma loc_iadd_blended (a : Qc) (pre : list Row) (r : Row) (df : pd.Frame) :
  In (fst r) (pd.index df) ->
  pd.loc_iadd (fst r) ((1 - a) * snd r)%Qc (blended a pre df)
  = Ok (blended a (pre ++ [r]) df).
Proof.
  intros Hin. unfold pd.loc_iadd.
  assert (Hl : pd.has_label (fst r) (blended a pre df) = true)
    by (apply has_label_In; now rewrite index_blended).
  rewrite Hl. unfold blended. rewrite map_map. apply f_equal.
  apply map_ext. intros [t w]. simpl.
  assert (Hsum : forall l, score_sum t (l ++ [r])
            = (score_sum t l + (if String.eqb (fst r) t then snd r else 0))%Qc).
  { induction l as [|r' l IH]; simpl.
    - destruct (String.eqb (fst r) t); ring.
    - rewrite IH. destruct (String.eqb (fst r') t); ring. }
  rewrite Hsum. rewrite (String.eqb_sym t (fst r)).
  destruct (String.eqb (fst r) t); f_equal; ring.
Qed.

Lemma in_drop (label : string) (df : pd.Frame) (r : Row) :
  In r (pd.drop label df) <-> In r df /\ fst r <> label.
Proof.
  unfold pd.drop. rewrite filter_In, negb_true_iff.
  split; intros [H1 H2]; (split; [assumption|]).
  - intros E. apply String.eqb_eq in E. congruence.
  - now apply String.eqb_neq.
Qed.

Lemma drop_absent (label : string) (df : pd.Frame) :
  ~ In label (pd.index df) -> pd.drop label df = df.
Proof.
  unfold pd.drop, pd.index. induction df as [|r df IH]; simpl; intros H; [reflexivity|].
  destruct (String.eqb (fst r) label) eqn:E.
  - apply String.eqb_eq in E. tauto.
  - simpl. f_equal. apply IH. tauto.
Qed.

Lemma ranking_excludes (label : string) (n : nat) (df : pd.Frame) :
  ~ In label (pd.index (pd.head n (pd.sort_values (pd.drop label df)))).
Proof.
  unfold pd.index, pd.head, pd.sort_values. rewrite in_map_iff.
  intros [r [Hlabel Hin]].
  apply firstn_In in Hin.
  apply (Permutation_in _ (sort_desc_perm _)) in Hin.
  apply in_drop in Hin. tauto.
Qed.

Lemma weight_of_imul (a : Qc) (label : string) (df : pd.Frame) :
  weight_of label (pd.imul a df)
  = option_map (fun w => (w * a)%Qc) (weight_of label df).
Proof.
  induction df as [|r df IH]; simpl; [reflexivity|].
  now destruct (String.eqb (fst r) label).
Qed.

Lemma score_sum_absent (label : string) (scores : list Row) :
  ~ In label (map fst scores) -> score_sum label scores = 0%Qc.
Proof.
  induction scores as [|r scores IH]; simpl; intros H; [reflexivity|].
  destruct (String.eqb (fst r) label) eqn:E.
  - apply String.eqb_eq in E. tauto.
  - apply IH. tauto.
Qed.

Lemma score_sum_unique (label : string) (c : Qc) (scores : list Row) :
  NoDup (map fst scores) -> In (label, c) scores -> score_sum label scores = c.
Proof.
  induction scores as [|r scores IH]; simpl; intros Hnd Hin; [tauto|].
  inversion Hnd as [|? ? Hnotin Hnd']; subst.
  destruct Hin as [->|Hin]; simpl.
  - rewrite String.eqb_refl, score_sum_absent by assumption. ring.
  - destruct (String.eqb (fst r) label) eqn:E.
    + apply String.eqb_eq in E. exfalso. apply Hnotin. rewrite E.
      change label with (fst (label, c)). now apply in_map.
    + auto.
Qed.

Lemma weight_of_blended (a : Qc) (scores : list Row) (label : string) (df : pd.Frame) :
  weight_of label (blended a scores df)
  = option_map (fun w => (w + (1 - a) * score_sum label scores)%Qc)
               (weight_of label df).
Proof.
  induction df as [|r df IH]; simpl; [reflexivity|].
  destruct (String.eqb (fst r) label) eqn:E; [|assumption].
  apply String.eqb_eq in E. subst. reflexivity.
Qed.

(** ** The blend loop *)

Section BlendLoop.

Variables (drv : Driver) (a : Qc) (w : pd.Frame).

Lemma for_iterrows_blend_ok (scores pre : list Row) :
  in_catalog w scores ->
  for_iterrows scores blend_row (mkRecommender drv a (blended a pre w))
  = (Ok tt, mkRecommender drv a (blended a (pre ++ scores) w)).
Proof.
  revert pre. induction scores as [|r scores IH]; intros pre Hcat; simpl.
  - rewrite app_nil_r. reflexivity.
  - unfold bind at 1. unfold blend_row at 1.
    unfold bind, gets, lift, set_weights; simpl.
    rewrite loc_iadd_blended by (apply Hcat; now left). simpl.
    rewrite IH by (intros r' Hr'; apply Hcat; now right).
    rewrite <- app_assoc. reflexivity.
Qed.

Lemma for_iterrows_blend_raise (pre0 pre post : list Row) (t : string) (c : Qc) :
  in_catalog w pre -> ~ In t (pd.index w) ->
  for_iterrows (pre ++ (t, c) :: post) blend_row
               (mkRecommender drv a (blended a pre0 w))
  = (Raise (KeyError t), mkRecommender drv a (blended a (pre0 ++ pre) w)).
Proof.
  revert pre0. induction pre as [|r pre IH]; intros pre0 Hcat Hout; simpl.
  - unfold bind at 1. unfold blend_row at 1.
    unfold bind, gets, lift, set_weights; simpl.
    unfold pd.loc_iadd.
    assert (Hl : pd.has_label t (blended a pre0 w) = false).
    { destruct (pd.has_label t (blended a pre0 w)) eqn:E; [|reflexivity].
      apply has_label_In in E. rewrite index_blended in E. tauto. }
    rewrite Hl, app_nil_r. reflexivity.
  - unfold bind at 1. unfold blend_row at 1.
    unfold bind, gets, lift, set_weights; simpl.
    rewrite loc_iadd_blended by (apply Hcat; now left). simpl.
    rewrite IH; [|intros r' Hr'; apply Hcat; now right|assumption].
    rewrite <- app_assoc. reflexivity.
Qed.

Lemma blend_loop_ok (scores : list Row) :
  in_catalog w scores ->
  for_iterrows scores blend_row (mkRecommender drv a w)
  = (Ok tt, mkRecommender drv a (blended a scores w)).
Proof.
  intros Hcat. rewrite <- (blended_nil a w) at 1.
  now rewrite for_iterrows_blend_ok.
Qed.

Lemma blend_loop_raise (pre post : list Row) (t : string) (c : Qc) :
  in_catalog w pre -> ~ In t (pd.index w) ->
  for_iterrows (pre ++ (t, c) :: post) blend_row (mkRecommender drv a w)
  = (Raise (KeyError t), mkRecommender drv a (blended a pre w)).
Proof.
  intros Hcat Hout. rewrite <- (blended_nil a w) at 1.
  now rewrite for_iterrows_blend_raise.
Qed.

(** A scorer result either stays inside the catalog or has a first row
    outside it. *)
Lemma in_catalog_or_first_outside (scores : list Row) :
  in_catalog w scores \/
  exists pre t c post,
    scores = pre ++ (t, c) :: post /\ in_catalog w pre /\ ~ In t (pd.index w).
Proof.
  induction scores as [|[t c] scores IH].
  - left. intros r [].
  - destruct (in_dec string_dec t (pd.index w)) as [Hin|Hout].
    + destruct IH as [Hcat | (pre & t' & c' & post & -> & Hpre & Hout)].
      * left. intros r [<-|Hr]; [exact Hin | now apply Hcat].
      * right. exists ((t, c) :: pre), t', c', post. repeat split; auto.
        intros r [<-|Hr]; [exact Hin | now apply Hpre].
    + right. exists [], t, c, scores. repeat split; auto. intros r [].
Qed.

End BlendLoop.

(** ** The four ways a call can go *)

Section Step.

Variables (self : UserSessionRecommender) (last_tool_run : string).

Let decayed : pd.Frame := pd.imul (alpha self) (session_weights self).

(** The store query raises: the call raises the same exception and the
    object is untouched. *)
Lemma update_recommendations_driver_error (e : exn) :
  driver self last_tool_run = Raise e ->
  update_recommendations last_tool_run self = (Raise e, self).
Proof.
  intros H. unfold update_recommendations, bind, gets, lift,
    get_ric_confidence_scores; simpl. rewrite H. reflexivity.
Qed.

(** The store answers with no row: the frame has no column, [set_index]
    raises, and the object is untouched. *)
Lemma update_recommendations_no_row :
  driver self last_tool_run = Ok [] ->
  update_recommendations last_tool_run self
  = (Raise (KeyError "None of ['recommendedTool'] are in the columns"), self).
Proof.
  intros H. unfold update_recommendations, bind, gets, lift,
    get_ric_confidence_scores; simpl. rewrite H. reflexivity.
Qed.

(** The store answers with rows inside the catalog: decay, blend, rank. *)
Lemma update_recommendations_ok (scores : list Row) :
  driver self last_tool_run = Ok scores ->
  scores <> [] ->
  in_catalog (session_weights self) scores ->
  let w' := blended (alpha self) scores decayed in
  update_recommendations last_tool_run self
  = (Ok (pd.head 5 (pd.sort_values (pd.drop last_tool_run w'))),
     mkRecommender (driver self) (alpha self) w').
Proof.
  intros H Hne Hcat.
  unfold update_recommendations, bind, gets, lift, set_weights,
    get_ric_confidence_scores.
  cbv beta. rewrite H.
  destruct scores as [|r scores']; [congruence|].
  change (pd.set_index "recommendedTool" (pd.DataFrame (r :: scores')))
    with (Ok (r :: scores')).
  cbv beta iota. simpl driver. simpl alpha.
  rewrite blend_loop_ok
    by (intros r' Hr'; rewrite index_imul; now apply Hcat).
  reflexivity.
Qed.

(** The store answers with a row outside the catalog: the call raises
    [KeyError] in the blend loop, after the decay and after the rows that
    come before the first such row. *)
Lemma update_recommendations_blend_error (pre post : list Row) (t : string) (c : Qc) :
  driver self last_tool_run = Ok (pre ++ (t, c) :: post) ->
  in_catalog (session_weights self) pre ->
  ~ In t (pd.index (session_weights self)) ->
  update_recommendations last_tool_run self
  = (Raise (KeyError t),
     mkRecommender (driver self) (alpha self) (blended (alpha self) pre decayed)).
Proof.
  intros H Hcat Hout.
  unfold update_recommendations, bind, gets, lift, set_weights,
    get_ric_confidence_scores.
  cbv beta. rewrite H.
  assert (Hidx : pd.set_index "recommendedTool" (pd.DataFrame (pre ++ (t, c) :: post))
                 = Ok (pre ++ (t, c) :: post)) by (now destruct pre).
  rewrite Hidx. cbv beta iota. simpl driver. simpl alpha.
  rewrite blend_loop_raise;
    [|intros r' Hr'; rewrite index_imul; now apply Hcat
     |now rewrite index_imul].
  reflexivity.
Qed.

End Step.

(** Every call goes one of three ways: it raises before touching the
    object (store error, or no row), it completes, or it raises in the
    blend loop. *)
Lemma update_recommendations_cases (self : UserSessionRecommender) (t : string) :
  (exists e, update_recommendations t self = (Raise e, self))
  \/ (exists scores,
        update_recommendations t self
        = (Ok (pd.head 5 (pd.sort_values (pd.drop t
                 (blended (alpha self) scores
                    (pd.imul (alpha self) (session_weights self)))))),
           mkRecommender (driver self) (alpha self)
             (blended (alpha self) scores
                (pd.imul (alpha self) (session_weights self)))))
  \/ (exists pre t',
        update_recommendations t self
        = (Raise (KeyError t'),
           mkRecommender (driver self) (alpha self)
             (blended (alpha self) pre
                (pd.imul (alpha self) (session_weights self))))).
Proof.
  destruct (driver self t) as [scores|e] eqn:Hd.
  - destruct scores as [|r scores'].
    + left. eexists. now apply update_recommendations_no_row.
    + right.
      destruct (in_catalog_or_first_outside (session_weights self) (r :: scores'))
        as [Hcat | (pre & t' & c & post & E & Hpre & Hout)].
      * left. exists (r :: scores').
        apply update_recommendations_ok; [assumption | discriminate | assumption].
      * right. exists pre, t'. rewrite E in Hd.
        eapply update_recommendations_blend_error; eassumption.
  - left. exists e. now apply update_recommendations_driver_error.
Qed.

(** No call changes the index of the weights. *)
Lemma update_recommendations_index (self : UserSessionRecommender) (t : string) :
  pd.index (session_weights (state_after (update_recommendations t) self))
  = pd.index (session_weights self).
Proof.
  unfold state_after.
  destruct (update_recommendations_cases self t)
    as [[e ->] | [[scores ->] | (pre & t' & ->)]]; simpl.
  - reflexivity.
  - now rewrite index_blended, index_imul.
  - now rewrite index_blended, index_imul.
Qed.

(** The weight of one tool after a call that reached the decay, in the two
    cases the blend distinguishes. *)
Lemma step_weight_of (self : UserSessionRecommender) (last_tool_run : string)
      (scores : list Row) (t : string) (w : Qc) :
  driver self last_tool_run = Ok scores ->
  scores <> [] ->
  in_catalog (session_weights self) scores ->
  weight_of t (session_weights self) = Some w ->
  let self' := state_after (update_recommendations last_tool_run) self in
  weight_of t (session_weights self')
  = Some (w * alpha self + (1 - alpha self) * score_sum t scores)%Qc.
Proof.
  intros Hd Hne Hcat Hw. unfold state_after.
  rewrite (update_recommendations_ok self last_tool_run scores Hd Hne Hcat).
  simpl. rewrite weight_of_blended, weight_of_imul, Hw. reflexivity.
Qed.

(** Decay, then blend: after a call whose scorer result has rows, all
    inside the catalog and one per tool, a scored tool weighs
    [w * alpha + (1 - alpha) * c] and any other tool [w * alpha]. *)
Lemma decay_then_blend (self : UserSessionRecommender) (last_tool_run : string)
      (scores : list Row) (t : string) (w : Qc) :
  driver self last_tool_run = Ok scores ->
  scores <> [] ->
  in_catalog (session_weights self) scores ->
  NoDup (map fst scores) ->
  weight_of t (session_weights self) = Some w ->
  let self' := state_after (update_recommendations last_tool_run) self in
  (forall c, In (t, c) scores ->
     weight_of t (session_weights self')
     = Some (w * alpha self + (1 - alpha self) * c)%Qc)
  /\ (~ In t (map fst scores) ->
      weight_of t (session_weights self') = Some (w * alpha self)%Qc).
Proof.
  intros Hd Hne Hcat Hnd Hw self'. subst self'.
  rewrite (step_weight_of self last_tool_run scores t w Hd Hne Hcat Hw).
  split.
  - intros c Hc. now rewrite (score_sum_unique t c scores Hnd Hc).
  - intros Hout. rewrite score_sum_absent by assumption. f_equal. ring.
Qed.

(** The weight a tool outside the scorer result has after a call that
    reached the decay, whether or not the blend loop then raised. *)
Lemma unscored_weight_after (self : UserSessionRecommender) (last_tool_run : string)
      (scores : list Row) (t : string) (w : Qc) :
  driver self last_tool_run = Ok scores ->
  scores <> [] ->
  ~ In t (map fst scores) ->
  weight_of t (session_weights self) = Some w ->
  weight_of t (session_weights (state_after (update_recommendations last_tool_run) self))
  = Some (w * alpha self)%Qc.
Proof.
  intros Hd Hne Hout Hw. unfold state_after.
  destruct (in_catalog_or_first_outside (session_weights self) scores)
    as [Hcat | (pre & t' & c & post & E & Hpre & Hout')].
  - rewrite (update_recommendations_ok self last_tool_run scores Hd Hne Hcat).
    cbn [snd session_weights].
    rewrite weight_of_blended, weight_of_imul, Hw, score_sum_absent by assumption.
    simpl. f_equal. ring.
  - rewrite E in Hd.
    rewrite (update_recommendations_blend_error self last_tool_run pre post t' c
               Hd Hpre Hout').
    cbn [snd session_weights].
    rewrite weight_of_blended, weight_of_imul, Hw, score_sum_absent.
    + simpl. f_equal. ring.
    + intros Hin. apply Hout. rewrite E, map_app. apply in_or_app. now left.
Qed.

(** ** The scenario of the specification *)

Lemma scenario_step1_weights :
  session_weights scenario_step1
  = [("A", dec 0 1); ("B", dec 56 100); ("C", dec 28 100); ("D", dec 0 1)].
Proof. by_rows. Qed.

Lemma scenario_step1_ranking :
  outcome (update_recommendations "A") scenario_start
  = Ok [("B", dec 56 100); ("C", dec 28 100); ("D", dec 0 1)].
Proof. by_returns. Qed.

Lemma scenario_step2_decay :
  pd.imul (alpha scenario_step1) (session_weights scenario_step1)
  = [("A", dec 0 1); ("B", dec 168 1000); ("C", dec 84 1000); ("D", dec 0 1)].
Proof. by_rows. Qed.

Lemma scenario_step2_weights :
  session_weights scenario_step2
  = [("A", dec 35 100); ("B", dec 168 1000); ("C", dec 84 1000); ("D", dec 14 100)].
Proof. by_rows. Qed.

Lemma scenario_step2_ranking :
  outcome (update_recommendations "B") scenario_step1
  = Ok [("A", dec 35 100); ("D", dec 14 100); ("C", dec 84 1000)].
Proof. by_returns. Qed.

(** On [demo_graph], two sessions contain [A]: [B] is in one of them
    (where it ran twice) and [C] in the other, so each scores [1/2]. *)
Lemma demo_query_counts_sessions :
  cypher.query demo_graph "A" = [("B", dec 1 2); ("C", dec 1 2)].
Proof. by_rows. Qed.

(** ** The confidence query *)

Section Query.

Variable g : Graph.

Lemma session_contains_iff (s t : string) :
  session_contains g s t = true
  <-> exists j, In (j, s) (IN_SESSION g) /\ In (j, t) (EXECUTED g).
Proof.
  unfold session_contains. rewrite existsb_exists. split.
  - intros [[j s'] [Hi H]]. simpl in H.
    apply andb_true_iff in H as [Hs He]. apply String.eqb_eq in Hs. subst s'.
    apply existsb_exists in He as [[j' t'] [He H]]. simpl in H.
    apply andb_true_iff in H as [Hj Ht].
    apply String.eqb_eq in Hj, Ht. subst. now exists j.
  - intros [j [Hi He]]. exists (j, s). split; [assumption|]. simpl.
    rewrite String.eqb_refl. simpl. apply existsb_exists.
    exists (j, t). split; [assumption|]. simpl. now rewrite !String.eqb_refl.
Qed.

Lemma in_match_sessions (lt s : string) :
  In s (cypher.match_sessions g lt)
  <-> exists j, In (j, s) (IN_SESSION g) /\ In (j, lt) (EXECUTED g).
Proof.
  unfold cypher.match_sessions. rewrite in_flat_map. split.
  - intros [[j t] [He H]]. simpl in H.
    destruct (String.eqb t lt) eqn:E; [|contradiction].
    apply String.eqb_eq in E. subst t.
    apply in_map_iff in H as [[j' s'] [Hs H]]. simpl in Hs. subst s'.
    apply filter_In in H as [Hi Hj]. simpl in Hj.
    apply String.eqb_eq in Hj. subst j'. now exists j.
  - intros [j [Hi He]]. exists (j, lt). split; [assumption|]. simpl.
    rewrite String.eqb_refl. apply in_map_iff. exists (j, s).
    split; [reflexivity|]. apply filter_In. split; [assumption|].
    simpl. apply String.eqb_refl.
Qed.

Lemma in_match_other_tools (s lt t : string) :
  In t (cypher.match_other_tools g s lt)
  <-> t <> lt /\ session_contains g s t = true.
Proof.
  rewrite session_contains_iff.
  unfold cypher.match_other_tools. rewrite in_flat_map. split.
  - intros [[j s'] [Hi H]]. simpl in H.
    destruct (String.eqb s' s) eqn:E; [|contradiction].
    apply String.eqb_eq in E. subst s'.
    apply in_map_iff in H as [[j' t'] [Ht H]]. simpl in Ht. subst t'.
    apply filter_In in H as [He H]. simpl in H.
    apply andb_true_iff in H as [Hj Hne].
    apply String.eqb_eq in Hj. subst j'.
    apply negb_true_iff, String.eqb_neq in Hne.
    split; [assumption|]. now exists j.
  - intros [Hne [j [Hi He]]]. exists (j, s). split; [assumption|]. simpl.
    rewrite String.eqb_refl. apply in_map_iff. exists (j, t).
    split; [reflexivity|]. apply filter_In. split; [assumption|].
    simpl. rewrite String.eqb_refl. simpl.
    apply negb_true_iff. now apply String.eqb_neq.
Qed.

Lemma in_spec_S (lastTool s : string) :
  In s (spec_S g lastTool) <-> session_contains g s lastTool = true.
Proof.
  unfold spec_S. rewrite filter_In, nodup_In. split; [tauto|].
  intros H. split; [|assumption].
  apply session_contains_iff in H as [j [Hi _]].
  apply in_map_iff. now exists (j, s).
Qed.

Lemma NoDup_spec_S (lastTool : string) : NoDup (spec_S g lastTool).
Proof. unfold spec_S. apply NoDup_filter, NoDup_nodup. Qed.

End Query.

Lemma NoDup_all_eq {A} (x : A) (l : list A) :
  NoDup l -> (forall y, In y l -> y = x) -> l = [] \/ l = [x].
Proof.
  intros Hnd Hall. destruct l as [|a [|b l]].
  - now left.
  - right. f_equal. apply Hall. now left.
  - exfalso. inversion Hnd as [|? ? Hnotin _]; subst. apply Hnotin.
    rewrite (Hall a), (Hall b); simpl; auto.
Qed.

Lemma NoDup_same_length {A} (l1 l2 : list A) :
  NoDup l1 -> NoDup l2 -> (forall x, In x l1 <-> In x l2) ->
  List.length l1 = List.length l2.
Proof.
  intros H1 H2 H. apply Permutation_length. now apply NoDup_Permutation.
Qed.

Lemma spec_m_pos (g : Graph) (lastTool t : string) :
  (0 < spec_m g lastTool t)%nat
  <-> exists s, In s (spec_S g lastTool) /\ session_contains g s t = true.
Proof.
  unfold spec_m.
  destruct (filter (fun s => session_contains g s t) (spec_S g lastTool))
    as [|s l] eqn:E; simpl; split.
  - lia.
  - intros [s Hs]. apply (proj2 (filter_In (fun s => session_contains g s t) s
                                         (spec_S g lastTool))) in Hs.
    rewrite E in Hs. contradiction.
  - intros _. exists s.
    apply (proj1 (filter_In (fun s => session_contains g s t) s
                            (spec_S g lastTool))).
    rewrite E. now left.
  - lia.
Qed.

Section QueryPipeline.

Variables (g : Graph) (lastTool : string).
Hypothesis Htool : In lastTool (tools g).

Let rows2 := cypher.rows_last_tool_sessions g lastTool.

Lemma in_rows_last_tool_sessions (lt s : string) :
  In (lt, s) rows2 <-> lt = lastTool /\ In s (spec_S g lastTool).
Proof.
  subst rows2. unfold cypher.rows_last_tool_sessions, cypher.match_last_tool.
  rewrite in_flat_map, in_spec_S, session_contains_iff. split.
  - intros [x [Hx H]]. apply filter_In in Hx as [Hx E].
    apply String.eqb_eq in E. subst x.
    apply in_map_iff in H as [s' [E H]]. injection E as <- <-.
    split; [reflexivity|]. now apply in_match_sessions.
  - intros [-> [j [Hi He]]]. exists lastTool. split.
    + apply filter_In. split; [exact Htool | apply String.eqb_refl].
    + apply in_map. apply in_match_sessions. now exists j.
Qed.

(** The sessions collected for [lastTool]. *)
Let ss : list string :=
  cypher.distinct
    (map snd (filter (fun r : string * string => String.eqb (fst r) lastTool) rows2)).

Lemma in_ss (s : string) : In s ss <-> In s (spec_S g lastTool).
Proof.
  subst ss. unfold cypher.distinct. rewrite nodup_In, in_map_iff. split.
  - intros [[lt s'] [E H]]. simpl in E. subst s'.
    apply filter_In in H as [H _].
    now apply in_rows_last_tool_sessions in H.
  - intros H. exists (lastTool, s). split; [reflexivity|].
    apply filter_In. split; [|apply String.eqb_refl].
    now apply in_rows_last_tool_sessions.
Qed.

Lemma length_ss : List.length ss = spec_n g lastTool.
Proof.
  apply NoDup_same_length.
  - apply NoDup_nodup.
  - apply NoDup_spec_S.
  - apply in_ss.
Qed.

Lemma collect_sessions_cases :
  (spec_S g lastTool = [] /\ cypher.collect_sessions rows2 = [])
  \/ cypher.collect_sessions rows2 = [(ss, lastTool)].
Proof.
  unfold cypher.collect_sessions.
  destruct (NoDup_all_eq lastTool (cypher.distinct (map fst rows2))) as [E|E].
  - apply NoDup_nodup.
  - intros y Hy. apply nodup_In, in_map_iff in Hy as [[lt s] [<- H]].
    now apply in_rows_last_tool_sessions in H.
  - left. rewrite E. split; [|reflexivity].
    destruct (spec_S g lastTool) as [|s l] eqn:ES; [reflexivity|exfalso].
    assert (Hin : In (lastTool, s) rows2).
    { apply in_rows_last_tool_sessions. rewrite ES. simpl. auto. }
    assert (Hk : In lastTool (cypher.distinct (map fst rows2))).
    { apply nodup_In. change lastTool with (fst (lastTool, s)). now apply in_map. }
    rewrite E in Hk. exact Hk.
  - right. rewrite E. reflexivity.
Qed.

Let rows7 : list (nat * string * string) :=
  cypher.rows_other_tools g (cypher.unwind_sessions [(ss, lastTool)]).

Lemma in_rows_other_tools (n : nat) (s t : string) :
  In (n, s, t) rows7
  <-> n = spec_n g lastTool /\ In s (spec_S g lastTool)
      /\ t <> lastTool /\ session_contains g s t = true.
Proof.
  subst rows7. unfold cypher.rows_other_tools, cypher.unwind_sessions.
  simpl flat_map at 2. rewrite app_nil_r, in_flat_map. simpl fst. simpl snd.
  rewrite length_ss. split.
  - intros [[[n' s'] lt] [Hr H]].
    apply in_map_iff in Hr as [s0 [E Hs0]]. injection E as <- <- <-.
    apply in_map_iff in H as [t' [E Ht]]. injection E as <- <- <-.
    apply in_match_other_tools in Ht. apply in_ss in Hs0. tauto.
  - intros (-> & Hs & Hne & Hc). exists (spec_n g lastTool, s, lastTool). split.
    + apply in_map_iff. exists s. split; [reflexivity|]. now apply in_ss.
    + apply in_map. now apply in_match_other_tools.
Qed.

Lemma joint_session_count (t : string) :
  t <> lastTool ->
  List.length
    (cypher.distinct
       (map (fun r : nat * string * string => snd (fst r))
            (filter (fun r : nat * string * string =>
                       if cypher.key_dec (fst (fst r), snd r) (spec_n g lastTool, t)
                       then true else false)
                    rows7)))
  = spec_m g lastTool t.
Proof.
  intros Hne. unfold spec_m. apply NoDup_same_length.
  - apply NoDup_nodup.
  - apply NoDup_filter, NoDup_spec_S.
  - intros s. unfold cypher.distinct. rewrite nodup_In, in_map_iff, filter_In. split.
    + intros [[[n' s'] t'] [E H]]. simpl in E. subst s'.
      apply filter_In in H as [H K]. cbn [fst snd] in K.
      destruct (cypher.key_dec (n', t') (spec_n g lastTool, t)) as [Ek|]; [|discriminate].
      injection Ek as -> ->. apply in_rows_other_tools in H. tauto.
    + intros [Hs Hc]. exists (spec_n g lastTool, s, t). split; [reflexivity|].
      apply filter_In. split; [now apply in_rows_other_tools|]. cbn [fst snd].
      now destruct (cypher.key_dec (spec_n g lastTool, t) (spec_n g lastTool, t)).
Qed.

Lemma in_keys (k : nat * string) :
  In k (map (fun r : nat * string * string => (fst (fst r), snd r)) rows7)
  <-> fst k = spec_n g lastTool /\ snd k <> lastTool /\ (0 < spec_m g lastTool (snd k))%nat.
Proof.
  rewrite in_map_iff, spec_m_pos. split.
  - intros [[[n s] t] [<- H]]. simpl. apply in_rows_other_tools in H.
    split; [tauto|]. split; [tauto|]. exists s. tauto.
  - destruct k as [n t]. simpl. intros (-> & Hne & s & Hs & Hc).
    exists (spec_n g lastTool, s, t). split; [reflexivity|].
    now apply in_rows_other_tools.
Qed.

Lemma in_count_joint_sessions (k : nat * string) (cnt : nat) :
  In (k, cnt) (cypher.count_joint_sessions rows7)
  <-> fst k = spec_n g lastTool /\ snd k <> lastTool
      /\ (0 < spec_m g lastTool (snd k))%nat /\ cnt = spec_m g lastTool (snd k).
Proof.
  unfold cypher.count_joint_sessions. rewrite in_map_iff. split.
  - intros [k' [E Hk]]. injection E as -> <-.
    apply nodup_In, in_keys in Hk. destruct k as [n t]. cbn [fst snd] in *.
    destruct Hk as (-> & Hne & Hpos). repeat split; try assumption.
    now apply joint_session_count.
  - destruct k as [n t]. cbn [fst snd]. intros (-> & Hne & Hpos & ->).
    exists (spec_n g lastTool, t). split.
    + f_equal. now apply joint_session_count.
    + apply nodup_In, in_keys. cbn [fst snd]. tauto.
Qed.

Lemma scored_cases :
  (spec_S g lastTool = [] /\ cypher.scored g lastTool = [])
  \/ cypher.scored g lastTool
     = cypher.return_rows (cypher.count_joint_sessions rows7).
Proof.
  unfold cypher.scored. fold rows2.
  destruct collect_sessions_cases as [[E1 E2]|E].
  - left. rewrite E2. split; [assumption | reflexivity].
  - right. rewrite E. reflexivity.
Qed.

(** The rows of the query before [ORDER BY] and [LIMIT]: one per tool
    other than [lastTool] with [m(t) > 0], scored [m(t) / n]. *)
Lemma in_scored (t : string) (c : Qc) :
  In (t, c) (cypher.scored g lastTool)
  <-> t <> lastTool /\ (0 < spec_m g lastTool t)%nat /\ c = spec_score g lastTool t.
Proof.
  destruct scored_cases as [[E1 E2]|E].
  - rewrite E2. simpl. split; [tauto|]. intros (_ & Hpos & _).
    apply spec_m_pos in Hpos as [s [Hs _]]. now rewrite E1 in Hs.
  - rewrite E. unfold cypher.return_rows, spec_score. rewrite in_map_iff. split.
    + intros [[[n t'] cnt] [Erow H]]. simpl in Erow. injection Erow as -> <-.
      apply in_count_joint_sessions in H. simpl in H.
      destruct H as (-> & Hne & Hpos & ->). tauto.
    + intros (Hne & Hpos & ->).
      exists (spec_n g lastTool, t, spec_m g lastTool t). split; [reflexivity|].
      apply in_count_joint_sessions. simpl. tauto.
Qed.

Lemma NoDup_scored : NoDup (map fst (cypher.scored g lastTool)).
Proof.
  destruct scored_cases as [[_ E]|E]; rewrite E; [constructor|].
  unfold cypher.return_rows, cypher.count_joint_sessions.
  rewrite !map_map. simpl.
  apply NoDup_map_NoDup_ForallPairs; [|apply NoDup_nodup].
  intros [n1 t1] [n2 t2] H1 H2. simpl. intros ->.
  apply nodup_In, in_keys in H1, H2. simpl in *. f_equal. lia.
Qed.

End QueryPipeline.

(** A [lastTool] that is no [Tool] node of the graph matches nothing. *)
Lemma scored_unknown_tool (g : Graph) (lastTool : string) :
  ~ In lastTool (tools g) -> cypher.scored g lastTool = [].
Proof.
  intros H. unfold cypher.scored, cypher.rows_last_tool_sessions.
  assert (E : cypher.match_last_tool g lastTool = []).
  { unfold cypher.match_last_tool.
    destruct (filter (String.eqb lastTool) (tools g)) as [|x l] eqn:E; [reflexivity|].
    exfalso. assert (Hx : In x (filter (String.eqb lastTool) (tools g)))
      by (rewrite E; now left).
    apply filter_In in Hx as [Hx Ex]. apply String.eqb_eq in Ex. now subst. }
  rewrite E. reflexivity.
Qed.

(** In a well-formed graph a tool some job executed is a [Tool] node. *)
Lemma spec_S_unknown_tool (g : Graph) (lastTool : string) :
  well_formed g = true -> ~ In lastTool (tools g) -> spec_S g lastTool = [].
Proof.
  intros wf H. destruct (spec_S g lastTool) as [|s l] eqn:E; [reflexivity|exfalso].
  assert (Hs : In s (spec_S g lastTool)) by (rewrite E; now left).
  apply in_spec_S, session_contains_iff in Hs as [j [_ He]].
  unfold well_formed in wf. rewrite forallb_forall in wf.
  specialize (wf _ He). simpl in wf.
  apply existsb_exists in wf as [x [Hx Ex]].
  apply String.eqb_eq in Ex. now subst.
Qed.

Lemma in_scored_wf (g : Graph) (lastTool t : string) (c : Qc) :
  well_formed g = true ->
  In (t, c) (cypher.scored g lastTool)
  <-> t <> lastTool /\ (0 < spec_m g lastTool t)%nat /\ c = spec_score g lastTool t.
Proof.
  intros wf. destruct (in_dec string_dec lastTool (tools g)) as [Hin|Hout].
  - now apply in_scored.
  - rewrite scored_unknown_tool by assumption. simpl. split; [tauto|].
    intros (_ & Hpos & _). apply spec_m_pos in Hpos as [s [Hs _]].
    now rewrite spec_S_unknown_tool in Hs.
Qed.

Lemma NoDup_scored_any (g : Graph) (lastTool : string) :
  NoDup (map fst (cypher.scored g lastTool)).
Proof.
  destruct (in_dec string_dec lastTool (tools g)) as [Hin|Hout].
  - now apply NoDup_scored.
  - rewrite scored_unknown_tool by assumption. constructor.
Qed.

Lemma spec_m_le_n (g : Graph) (lastTool t : string) :
  (spec_m g lastTool t <= spec_n g lastTool)%nat.
Proof. unfold spec_m, spec_n. apply filter_length_le. Qed.

Lemma confidence_bounds (m n : nat) :
  (m <= n)%nat -> (0 < n)%nat ->
  (0 <= cypher.confidence m n)%Qc /\ (cypher.confidence m n <= 1)%Qc.
Proof.
  intros Hmn Hn.
  assert (Hpos : (0 < inject_Z (Z.of_nat n))%Q).
  { change 0%Q with (inject_Z 0). rewrite <- Zlt_Qlt. lia. }
  assert (H0 : (0 <= inject_Z (Z.of_nat m) / inject_Z (Z.of_nat n))%Q).
  { apply Qle_shift_div_l; [exact Hpos|]. rewrite Qmult_0_l.
    change 0%Q with (inject_Z 0). rewrite <- Zle_Qle. lia. }
  assert (H1 : (inject_Z (Z.of_nat m) / inject_Z (Z.of_nat n) <= 1)%Q).
  { apply Qle_shift_div_r; [exact Hpos|]. rewrite Qmult_1_l.
    rewrite <- Zle_Qle. lia. }
  unfold cypher.confidence, Qcle. cbn [this Q2Qc].
  split.
  - rewrite (Qred_correct (inject_Z (Z.of_nat m) / inject_Z (Z.of_nat n))).
    exact H0.
  - rewrite (Qred_correct (inject_Z (Z.of_nat m) / inject_Z (Z.of_nat n))).
    exact H1.
Qed.

(** The division of the query is the fraction [m / n]. *)
Lemma confidence_is_ratio (m n : nat) :
  (0 < n)%nat -> cypher.confidence m n = Q2Qc (Z.of_nat m # Pos.of_nat n).
Proof.
  intros Hn. unfold cypher.confidence. apply Q2Qc_eq_iff.
  destruct n as [|k]; [lia|].
  rewrite <- Pos.of_nat_succ.
  unfold Qeq, Qdiv, Qmult, Qinv, inject_Z. simpl. lia.
Qed.

Lemma NoDup_firstn {A} (n : nat) (l : list A) : NoDup l -> NoDup (firstn n l).
Proof.
  revert n. induction l as [|x l IH]; intros [|n] H; simpl; try constructor.
  - inversion H; subst. intros Hin. apply firstn_In in Hin. contradiction.
  - inversion H; subst. auto.
Qed.

(** What [LIMIT] leaves out of a sorted list is ranked after everything it
    keeps. *)
Lemma sorted_firstn_complete {A} (R : A -> A -> Prop) (k : nat) (l : list A) (x : A) :
  StronglySorted R l -> In x l ->
  In x (firstn k l)
  \/ (List.length (firstn k l) = k /\ forall r, In r (firstn k l) -> R r x).
Proof.
  revert k. induction l as [|a l IH]; intros k Hs Hx; [contradiction|].
  destruct k as [|k]; [right; simpl; split; [reflexivity | tauto]|].
  inversion Hs as [|? ? Hs' Hall]; subst. simpl.
  destruct Hx as [->|Hx]; [left; now left|].
  destruct (IH k Hs' Hx) as [Hin | [Hlen Hle]].
  - left. now right.
  - right. split; [now rewrite Hlen|].
    intros r [<-|Hr]; [|now apply Hle].
    rewrite Forall_forall in Hall. now apply Hall.
Qed.

Lemma map_fixed {A} (f : A -> A) (l : list A) :
  map f l = l -> forall x, In x l -> f x = x.
Proof.
  induction l as [|y l IH]; simpl; intros H x Hx; [tauto|].
  injection H as Hy Hl. destruct Hx as [<-|Hx]; auto.
Qed.

(** * The claims *)

(** C1.  The decay-then-blend update is claimed for every scorer result
    whose tools lie in the catalog, the empty one included.  At the empty
    result the code does something else: after step 1 of the scenario, a
    call for the tool [C] (for which the scripted scorer has no row) raises
    [KeyError] on [set_index] and leaves the weights as they were, so [B]
    keeps [0.56] where the decay would have given [0.168]. *)
Theorem empty_result_skips_decay :
  driver scenario_step1 "C" = Ok []
  /\ in_catalog (session_weights scenario_step1) []
  /\ outcome (update_recommendations "C") scenario_step1
     = Raise (KeyError "None of ['recommendedTool'] are in the columns")
  /\ session_weights (state_after (update_recommendations "C") scenario_step1)
     = session_weights scenario_step1
  /\ weight_of "B" (session_weights scenario_step1) = Some (dec 56 100)
  /\ weight_of "B" (pd.imul (alpha scenario_step1) (session_weights scenario_step1))
     = Some (dec 168 1000)
  /\ dec 56 100 <> dec 168 1000.
Proof.
  assert (Hd : driver scenario_step1 "C" = Ok []) by reflexivity.
  pose proof (update_recommendations_no_row scenario_step1 "C" Hd) as Hrun.
  unfold outcome, state_after. rewrite Hrun. simpl fst. simpl snd.
  repeat split; try reflexivity.
  - intros r [].
  - rewrite scenario_step1_weights. simpl. reflexivity.
  - rewrite scenario_step2_decay. simpl. reflexivity.
  - intros H. apply (f_equal this) in H. vm_compute in H. discriminate.
Qed.

(** C2.  A call whose scorer result is empty is claimed to succeed with
    the weights decayed.  On [demo_graph] the query for the catalog tool
    [E] returns no row, and the call of a fresh recommender raises
    [KeyError] instead of returning a ranking: [pd.DataFrame([])] has no
    [recommendedTool] column for [set_index]. *)
Theorem no_history_step_raises :
  In "E" (tools demo_graph)
  /\ cypher.query demo_graph "E" = []
  /\ get_ric_confidence_scores (neo4j demo_graph) "E" = Ok (pd.DataFrame [])
  /\ outcome (update_recommendations "E")
             (init (neo4j demo_graph) (tools demo_graph) default_alpha)
     = Raise (KeyError "None of ['recommendedTool'] are in the columns").
Proof.
  assert (Hq : cypher.query demo_graph "E" = []) by (vm_compute; reflexivity).
  split; [|split; [|split]].
  - simpl. tauto.
  - exact Hq.
  - unfold get_ric_confidence_scores, neo4j. now rewrite Hq.
  - unfold outcome. rewrite update_recommendations_no_row; [reflexivity|].
    simpl. unfold neo4j. now rewrite Hq.
Qed.

(** C3.  On a well-formed graph, every row [(t, c)] the query returns has
    [t <> lastTool], [0 < m(t) <= n] and [c] equal to the fraction
    [m(t) / n], with [n] the number of distinct sessions containing a job
    executing [lastTool] and [m(t)] the number of those that also contain a
    job executing [t], as the specification defines them (a session counts
    once however often the tool ran in it); no tool is returned twice; the
    rows are in descending order of score; there are at most 10; and a
    tool with [m(t) > 0] that is not returned was cut by the limit, its
    score being at most every returned one.  (When no session contains
    [lastTool] the result is empty and all of this holds trivially.) *)
Theorem query_computes_session_confidence (g : Graph) (lastTool : string) :
  well_formed g = true ->
  let result := cypher.query g lastTool in
  let n := spec_n g lastTool in
  let m := spec_m g lastTool in
  (forall t c, In (t, c) result ->
     t <> lastTool /\ (0 < m t <= n)%nat
     /\ c = Q2Qc (Z.of_nat (m t) # Pos.of_nat n))
  /\ NoDup (map fst result)
  /\ StronglySorted (fun r1 r2 : Row => (snd r2 <= snd r1)%Qc) result
  /\ (List.length result <= 10)%nat
  /\ (forall t, t <> lastTool -> (0 < m t)%nat ->
        In (t, Q2Qc (Z.of_nat (m t) # Pos.of_nat n)) result
        \/ (List.length result = 10%nat
            /\ forall r, In r result ->
                 (Q2Qc (Z.of_nat (m t) # Pos.of_nat n) <= snd r)%Qc)).
Proof.
  intros wf result n m. subst result n m. unfold cypher.query.
  assert (Hratio : forall t, (0 < spec_m g lastTool t)%nat ->
            spec_score g lastTool t
            = Q2Qc (Z.of_nat (spec_m g lastTool t) # Pos.of_nat (spec_n g lastTool))).
  { intros t Hpos. unfold spec_score. apply confidence_is_ratio.
    pose proof (spec_m_le_n g lastTool t). lia. }
  split; [|split; [|split; [|split]]].
  - intros t c H. apply firstn_In in H.
    apply (Permutation_in _ (sort_desc_perm _)) in H.
    apply in_scored_wf in H; [|assumption]. destruct H as (Hne & Hpos & ->).
    pose proof (spec_m_le_n g lastTool t).
    split; [assumption|]. split; [lia|]. now apply Hratio.
  - rewrite <- firstn_map. apply NoDup_firstn.
    eapply Permutation_NoDup; [|apply NoDup_scored_any].
    symmetry. apply Permutation_map, sort_desc_perm.
  - apply (StronglySorted_firstn desc), sort_desc_sorted.
  - apply firstn_le_length.
  - intros t Hne Hpos. rewrite <- (Hratio t Hpos).
    assert (Hin : In (t, spec_score g lastTool t) (sort_desc (cypher.scored g lastTool))).
    { apply (Permutation_in _ (Permutation_sym (sort_desc_perm _))).
      apply in_scored_wf; auto. }
    destruct (sorted_firstn_complete desc 10 _ _ (sort_desc_sorted _) Hin)
      as [H | [Hlen Hle]]; [now left | right].
    split; [exact Hlen|]. intros r Hr. exact (Hle r Hr).
Qed.

Lemma query_computes_session_confidence_witness :
  let result := cypher.query demo_graph "A" in
  let n := spec_n demo_graph "A" in
  let m := spec_m demo_graph "A" in
  (forall t c, In (t, c) result ->
     t <> "A" /\ (0 < m t <= n)%nat
     /\ c = Q2Qc (Z.of_nat (m t) # Pos.of_nat n))
  /\ NoDup (map fst result)
  /\ StronglySorted (fun r1 r2 : Row => (snd r2 <= snd r1)%Qc) result
  /\ (List.length result <= 10)%nat
  /\ (forall t, t <> "A" -> (0 < m t)%nat ->
        In (t, Q2Qc (Z.of_nat (m t) # Pos.of_nat n)) result
        \/ (List.length result = 10%nat
            /\ forall r, In r result ->
                 (Q2Qc (Z.of_nat (m t) # Pos.of_nat n) <= snd r)%Qc)).
Proof.
  apply (query_computes_session_confidence demo_graph "A").
  reflexivity.
Defined.

(** C4.  When the store query raises, the call raises the same exception
    and the recommender, its weights in particular, is exactly as before
    the call. *)
Theorem store_failure_preserves_weights
        (self : UserSessionRecommender) (last_tool_run : string) (e : exn) :
  driver self last_tool_run = Raise e ->
  outcome (update_recommendations last_tool_run) self = Raise e
  /\ session_weights (state_after (update_recommendations last_tool_run) self)
     = session_weights self
  /\ state_after (update_recommendations last_tool_run) self = self.
Proof.
  intros H. unfold outcome, state_after.
  rewrite (update_recommendations_driver_error self last_tool_run e H).
  repeat split.
Qed.

Lemma store_failure_preserves_weights_witness :
  outcome (update_recommendations "A") offline_session
  = Raise (DriverError "timeout")
  /\ session_weights (state_after (update_recommendations "A") offline_session)
     = session_weights offline_session
  /\ state_after (update_recommendations "A") offline_session = offline_session.
Proof.
  apply (store_failure_preserves_weights offline_session "A" (DriverError "timeout")).
  reflexivity.
Defined.

(** C5.  After any sequence of calls, completed or raised, the index of
    the weights is the catalog the recommender was built from: the same
    labels, in the same order. *)
Theorem weights_index_is_catalog
        (drv : Driver) (all_tool_ids : list string) (a : Qc) (steps : list string) :
  pd.index (session_weights (run_steps steps (init drv all_tool_ids a)))
  = all_tool_ids.
Proof.
  assert (Hinit : pd.index (session_weights (init drv all_tool_ids a)) = all_tool_ids).
  { unfold init, pd.index; simpl. rewrite map_map. simpl. apply map_id. }
  revert Hinit. generalize (init drv all_tool_ids a) as self.
  unfold run_steps. induction steps as [|t steps IH]; intros self Hself; simpl.
  - exact Hself.
  - apply IH. now rewrite update_recommendations_index.
Qed.

(** C6.  The list a completed call returns has no row labelled with the
    tool passed to the call. *)
Theorem last_tool_not_recommended
        (self : UserSessionRecommender) (last_tool_run : string) (recs : pd.Frame) :
  outcome (update_recommendations last_tool_run) self = Ok recs ->
  ~ In last_tool_run (pd.index recs).
Proof.
  unfold outcome.
  destruct (update_recommendations_cases self last_tool_run)
    as [[e ->] | [[scores ->] | (pre & t' & ->)]]; cbn [fst]; try discriminate.
  intros H.
  assert (E : recs = pd.head 5 (pd.sort_values (pd.drop last_tool_run
                (blended (alpha self) scores
                   (pd.imul (alpha self) (session_weights self))))))
    by congruence.
  rewrite E. apply ranking_excludes.
Qed.

Lemma last_tool_not_recommended_witness :
  ~ In "A" (pd.index [("B", dec 56 100); ("C", dec 28 100); ("D", dec 0 1)]).
Proof.
  apply (last_tool_not_recommended scenario_start "A").
  exact scenario_step1_ranking.
Defined.

(** C7, as stated, fails: in step 1 of the scenario [alpha = 0.3 < 1] and
    the catalog tool [D] is not in the scorer result, yet its weight is [0]
    before and after the call, so it does not strictly decrease. *)
Lemma zero_weight_does_not_decrease :
  (alpha scenario_start < 1)%Qc
  /\ In "D" (pd.index (session_weights scenario_start))
  /\ driver scenario_start "A" = Ok [("B", dec 8 10); ("C", dec 4 10)]
  /\ ~ In "D" (map fst [("B", dec 8 10); ("C", dec 4 10)])
  /\ is_ok (outcome (update_recommendations "A") scenario_start) = true
  /\ ~ (exists w w',
          weight_of "D" (session_weights scenario_start) = Some w
          /\ weight_of "D" (session_weights
                              (state_after (update_recommendations "A") scenario_start))
             = Some w'
          /\ (w' < w)%Qc).
Proof.
  split; [|split; [|split; [|split; [|split]]]].
  - vm_compute. reflexivity.
  - simpl. tauto.
  - reflexivity.
  - simpl. intros [H|[H|[]]]; discriminate.
  - rewrite scenario_step1_ranking. reflexivity.
  - intros (w & w' & Hw & Hw' & Hlt).
    change (state_after (update_recommendations "A") scenario_start)
      with scenario_step1 in Hw'.
    rewrite scenario_step1_weights in Hw'.
    simpl in Hw, Hw'. injection Hw as <-. injection Hw' as <-.
    revert Hlt. vm_compute. discriminate.
Qed.

(** C7, amended.  When the scorer result has rows and none of them is for
    the catalog tool [t], the weight of [t] after the call is its weight
    before multiplied by [alpha]: no greater than before when
    [alpha <= 1] and the weight before is not negative, and the same when
    [alpha = 1] or the weight before is [0].  A strict decrease is not
    promised. *)
Theorem unscored_weight_decays
        (self : UserSessionRecommender) (last_tool_run : string)
        (scores : list Row) (t : string) (w : Qc) :
  driver self last_tool_run = Ok scores ->
  scores <> [] ->
  ~ In t (map fst scores) ->
  weight_of t (session_weights self) = Some w ->
  exists w',
    weight_of t (session_weights
                   (state_after (update_recommendations last_tool_run) self))
    = Some w'
    /\ w' = (w * alpha self)%Qc
    /\ ((alpha self <= 1)%Qc -> (0 <= w)%Qc -> (w' <= w)%Qc)
    /\ (alpha self = 1%Qc \/ w = 0%Qc -> w' = w).
Proof.
  intros Hd Hne Hout Hw. exists (w * alpha self)%Qc.
  split; [now apply (unscored_weight_after self last_tool_run scores)|].
  split; [reflexivity|]. split.
  - intros Ha Hpos. now apply Qc_decay_le.
  - intros [-> | ->]; ring.
Qed.

Lemma unscored_weight_decays_witness :
  exists w',
    weight_of "C" (session_weights
                     (state_after (update_recommendations "B") scenario_step1))
    = Some w'
    /\ w' = (dec 28 100 * alpha scenario_step1)%Qc
    /\ ((alpha scenario_step1 <= 1)%Qc -> (0 <= dec 28 100)%Qc -> (w' <= dec 28 100)%Qc)
    /\ (alpha scenario_step1 = 1%Qc \/ dec 28 100 = 0%Qc -> w' = dec 28 100).
Proof.
  apply (unscored_weight_decays scenario_step1 "B"
           [("A", dec 5 10); ("D", dec 2 10)] "C" (dec 28 100)).
  - reflexivity.
  - discriminate.
  - simpl. intros [H|[H|[]]]; discriminate.
  - rewrite scenario_step1_weights. reflexivity.
Defined.

(** C8.  Every score the query returns lies in [[0, 1]], on every graph and
    for every query tool. *)
Theorem confidence_scores_in_unit_interval (g : Graph) (lastTool : string) :
  Forall (fun r : Row => (0 <= snd r)%Qc /\ (snd r <= 1)%Qc)
         (cypher.query g lastTool).
Proof.
  apply Forall_forall. intros [t c] H. simpl. unfold cypher.query in H.
  apply firstn_In in H. apply (Permutation_in _ (sort_desc_perm _)) in H.
  destruct (in_dec string_dec lastTool (tools g)) as [Hin|Hout].
  - apply in_scored in H; [|assumption]. destruct H as (_ & Hpos & ->).
    unfold spec_score. pose proof (spec_m_le_n g lastTool t).
    apply confidence_bounds; lia.
  - rewrite scored_unknown_tool in H by assumption. contradiction.
Qed.

(** C9.  When the tool passed to the call labels no row of the weights and
    the scorer result has rows, all inside the catalog, the call completes
    and nothing is excluded: the value returned is the first five rows
    (all of them when there are fewer) of a descending ordering of the
    whole updated weight vector, whose labels are still the whole
    catalog. *)
Theorem unknown_last_tool_ranks_whole_catalog
        (self : UserSessionRecommender) (last_tool_run : string) (scores : list Row) :
  ~ In last_tool_run (pd.index (session_weights self)) ->
  driver self last_tool_run = Ok scores ->
  scores <> [] ->
  in_catalog (session_weights self) scores ->
  let self' := state_after (update_recommendations last_tool_run) self in
  exists recs ranked,
    outcome (update_recommendations last_tool_run) self = Ok recs
    /\ Permutation ranked (session_weights self')
    /\ StronglySorted (fun r1 r2 : Row => (snd r2 <= snd r1)%Qc) ranked
    /\ recs = firstn 5 ranked
    /\ List.length recs = Nat.min 5 (List.length (session_weights self))
    /\ map fst (session_weights self') = map fst (session_weights self).
Proof.
  intros Hout Hd Hne Hcat self'.
  assert (Hidx : pd.index (session_weights self') = pd.index (session_weights self))
    by apply update_recommendations_index.
  assert (Hdrop : pd.drop last_tool_run (session_weights self') = session_weights self')
    by (apply drop_absent; now rewrite Hidx).
  exists (firstn 5 (sort_desc (session_weights self'))),
         (sort_desc (session_weights self')).
  split; [|split; [|split; [|split; [|split]]]].
  - rewrite <- Hdrop at 1. subst self'. unfold outcome, state_after.
    rewrite (update_recommendations_ok self last_tool_run scores Hd Hne Hcat).
    reflexivity.
  - apply sort_desc_perm.
  - apply sort_desc_sorted.
  - reflexivity.
  - rewrite length_firstn. apply (f_equal (Nat.min 5)).
    transitivity (List.length (session_weights self'));
      [apply Permutation_length, sort_desc_perm|].
    pose proof (f_equal (@List.length string) Hidx) as Hlen.
    unfold pd.index in Hlen. rewrite !length_map in Hlen. exact Hlen.
  - exact Hidx.
Qed.

Lemma unknown_last_tool_witness :
  let self' := state_after (update_recommendations "Z") wide_session in
  exists recs ranked,
    outcome (update_recommendations "Z") wide_session = Ok recs
    /\ Permutation ranked (session_weights self')
    /\ StronglySorted (fun r1 r2 : Row => (snd r2 <= snd r1)%Qc) ranked
    /\ recs = firstn 5 ranked
    /\ List.length recs = Nat.min 5 (List.length (session_weights wide_session))
    /\ map fst (session_weights self') = map fst (session_weights wide_session).
Proof.
  apply (unknown_last_tool_ranks_whole_catalog wide_session "Z" [("B", dec 1 2)]).
  - simpl. intros H. repeat (destruct H as [H|H]; [discriminate|]). exact H.
  - reflexivity.
  - discriminate.
  - intros r [<-|[]]. simpl. tauto.
Defined.

(** C10, as stated, fails: with [alpha = 0.5], after a first call has set
    the weight of [A] to [0.5], a call whose scorer result is
    [[(A, 0.5), (Z, 1)]] raises [KeyError] on [Z] and leaves the weights
    equal to what they were before it ([0.5 * 0.5 + 0.5 * 0.5 = 0.5]),
    although a weight was nonzero. *)
Lemma blend_failure_can_restore_weights :
  weight_of "A" (session_weights half_step1) = Some (dec 1 2)
  /\ dec 1 2 <> 0%Qc
  /\ driver half_step1 "Y" = Ok [("A", dec 1 2); ("Z", dec 1 1)]
  /\ ~ In "Z" (pd.index (session_weights half_step1))
  /\ outcome (update_recommendations "Y") half_step1 = Raise (KeyError "Z")
  /\ session_weights (state_after (update_recommendations "Y") half_step1)
     = session_weights half_step1.
Proof.
  assert (Hw : session_weights half_step1 = [("A", dec 1 2)]) by by_rows.
  split; [|split; [|split; [|split; [|split]]]].
  - rewrite Hw. reflexivity.
  - intros H. apply (f_equal this) in H. vm_compute in H. discriminate.
  - reflexivity.
  - rewrite Hw. simpl. intros [H|[]]. discriminate.
  - vm_compute. reflexivity.
  - by_rows.
Qed.

(** C10, amended.  When the scorer result has a row outside the catalog,
    the call raises [KeyError] for the first such row; at that point every
    weight has been multiplied by [alpha] and the increments of the rows
    before that one, and of no other, have been added.  The weights then
    differ from those before the call whenever the product by [alpha]
    changes the weight of some tool with no row before the offending
    one. *)
Theorem blend_failure_after_decay
        (self : UserSessionRecommender) (last_tool_run : string) (scores : list Row) :
  driver self last_tool_run = Ok scores ->
  (exists r, In r scores /\ ~ In (fst r) (pd.index (session_weights self))) ->
  let self' := state_after (update_recommendations last_tool_run) self in
  exists pre t c post,
    scores = pre ++ (t, c) :: post
    /\ in_catalog (session_weights self) pre
    /\ ~ In t (pd.index (session_weights self))
    /\ outcome (update_recommendations last_tool_run) self = Raise (KeyError t)
    /\ session_weights self'
       = map (fun r : Row =>
                (fst r, (snd r * alpha self
                         + (1 - alpha self) * score_sum (fst r) pre)%Qc))
             (session_weights self)
    /\ ((exists u x, In (u, x) (session_weights self)
                     /\ ~ In u (map fst pre) /\ (x * alpha self)%Qc <> x) ->
        session_weights self' <> session_weights self).
Proof.
  intros Hd (r & Hr & Hrout) self'.
  destruct (in_catalog_or_first_outside (session_weights self) scores)
    as [Hcat | (pre & t & c & post & E & Hpre & Hout)].
  { exfalso. apply Hrout. now apply Hcat. }
  exists pre, t, c, post.
  assert (Hrun := Hd). rewrite E in Hrun.
  apply (update_recommendations_blend_error self last_tool_run pre post t c) in Hrun;
    [|assumption|assumption].
  assert (Hw : session_weights self'
               = map (fun r : Row =>
                        (fst r, (snd r * alpha self
                                 + (1 - alpha self) * score_sum (fst r) pre)%Qc))
                     (session_weights self)).
  { subst self'. unfold state_after. rewrite Hrun. cbn [snd session_weights].
    unfold blended, pd.imul. now rewrite map_map. }
  repeat (split; [assumption|]).
  split; [unfold outcome; now rewrite Hrun|].
  split; [exact Hw|].
  intros (u & x & Hin & Hu & Hx) Heq.
  rewrite Hw in Heq.
  pose proof (map_fixed _ _ Heq (u, x) Hin) as Hfix. simpl in Hfix.
  injection Hfix as Hfix.
  rewrite score_sum_absent in Hfix by assumption.
  apply Hx. rewrite <- Hfix at 2. ring.
Qed.

Lemma blend_failure_after_decay_witness :
  let self' := state_after (update_recommendations "Y") stray_session in
  (exists pre t c post,
     [("B", dec 1 2); ("Z", dec 1 1)] = pre ++ (t, c) :: post
     /\ in_catalog (session_weights stray_session) pre
     /\ ~ In t (pd.index (session_weights stray_session))
     /\ outcome (update_recommendations "Y") stray_session = Raise (KeyError t)
     /\ session_weights self'
        = map (fun r : Row =>
                 (fst r, (snd r * alpha stray_session
                          + (1 - alpha stray_session) * score_sum (fst r) pre)%Qc))
              (session_weights stray_session)
     /\ ((exists u x, In (u, x) (session_weights stray_session)
                      /\ ~ In u (map fst pre)
                      /\ (x * alpha stray_session)%Qc <> x) ->
         session_weights self' <> session_weights stray_session))
  /\ session_weights self' <> session_weights stray_session.
Proof.
  assert (H := blend_failure_after_decay stray_session "Y"
                 [("B", dec 1 2); ("Z", dec 1 1)] eq_refl).
  assert (Hz : ~ In "Z" (pd.index (session_weights stray_session))).
  { simpl. intros K. repeat (destruct K as [K|K]; [discriminate|]). exact K. }
  specialize (H (ex_intro _ ("Z", dec 1 1) (conj (or_intror (or_introl eq_refl)) Hz))).
  split; [exact H|].
  destruct H as (pre & t & c & post & E & Hpre & Hout & _ & _ & Hdiff).
  apply Hdiff. exists "C", (dec 28 100). split; [simpl; tauto|]. split.
  - destruct pre as [|r1 [|r2 pre]]; simpl in E.
    + simpl. tauto.
    + inversion E; subst. simpl. intros [K|[]]. discriminate.
    + inversion E; subst. exfalso.
      apply Hz. apply (Hpre ("Z", dec 1 1)). simpl. tauto.
  - intros K. apply (f_equal this) in K. vm_compute in K. discriminate.
Defined.

(** * Further properties of the recommender *)

(** What any call does to the object: nothing, or the decay followed by
    the increments of a prefix [pre] of the scorer result (all of it when
    the call completes). *)
Lemma update_recommendations_effect (self : UserSessionRecommender) (t : string) :
  state_after (update_recommendations t) self = self
  \/ exists scores pre post,
       driver self t = Ok scores
       /\ scores = pre ++ post
       /\ state_after (update_recommendations t) self
          = mkRecommender (driver self) (alpha self)
              (blended (alpha self) pre
                 (pd.imul (alpha self) (session_weights self))).
Proof.
  unfold state_after.
  destruct (driver self t) as [scores|e] eqn:Hd.
  - destruct scores as [|r scores'].
    + left. now rewrite update_recommendations_no_row.
    + right.
      destruct (in_catalog_or_first_outside (session_weights self) (r :: scores'))
        as [Hcat | (pre & t' & c & post & E & Hpre & Hout)].
      * exists (r :: scores'), (r :: scores'), []. rewrite app_nil_r.
        split; [reflexivity|]. split; [reflexivity|].
        rewrite (update_recommendations_ok self t (r :: scores') Hd); auto.
        discriminate.
      * exists (r :: scores'), pre, ((t', c) :: post).
        split; [reflexivity|]. split; [exact E|].
        rewrite E in Hd.
        now rewrite (update_recommendations_blend_error self t pre post t' c Hd).
  - left. now rewrite (update_recommendations_driver_error self t e).
Qed.

Lemma update_recommendations_fields (self : UserSessionRecommender) (t : string) :
  driver (state_after (update_recommendations t) self) = driver self
  /\ alpha (state_after (update_recommendations t) self) = alpha self.
Proof.
  destruct (update_recommendations_effect self t)
    as [-> | (scores & pre & post & _ & _ & ->)]; split; reflexivity.
Qed.

Lemma run_steps_snoc (steps : list string) (t : string) (self : UserSessionRecommender) :
  run_steps (steps ++ [t]) self
  = state_after (update_recommendations t) (run_steps steps self).
Proof. unfold run_steps. now rewrite fold_left_app. Qed.

Lemma run_steps_fields (steps : list string) (self : UserSessionRecommender) :
  driver (run_steps steps self) = driver self
  /\ alpha (run_steps steps self) = alpha self
  /\ pd.index (session_weights (run_steps steps self))
     = pd.index (session_weights self).
Proof.
  induction steps as [|t steps IH] using rev_ind; [repeat split|].
  rewrite run_steps_snoc.
  destruct (update_recommendations_fields (run_steps steps self) t) as [-> ->].
  rewrite update_recommendations_index. exact IH.
Qed.

(** X1.  When the store answers the confidence query with no row, the call
    raises [KeyError] (no [recommendedTool] column) and the recommender is left
    exactly as it was. *)
Theorem no_rows_raise_key_error
        (self : UserSessionRecommender) (last_tool_run : string) :
  driver self last_tool_run = Ok [] ->
  outcome (update_recommendations last_tool_run) self
  = Raise (KeyError "None of ['recommendedTool'] are in the columns")
  /\ state_after (update_recommendations last_tool_run) self = self.
Proof.
  intros H. unfold outcome, state_after.
  unfold update_recommendations, bind, gets, lift, get_ric_confidence_scores.
  cbv beta. rewrite H. split; reflexivity.
Qed.

Lemma no_rows_raise_key_error_witness :
  outcome (update_recommendations "C") scenario_step1
  = Raise (KeyError "None of ['recommendedTool'] are in the columns")
  /\ state_after (update_recommendations "C") scenario_step1 = scenario_step1.
Proof.
  apply (no_rows_raise_key_error scenario_step1 "C"). reflexivity.
Defined.

(** X2.  When the scorer result has rows, one per tool and all for tools
    of the catalog, the call completes; a tool scored [c] then weighs
    [w * alpha + (1 - alpha) * c] and a tool that is not scored weighs
    [w * alpha], where [w] was its weight before the call. *)
Theorem completed_step_weights
        (self : UserSessionRecommender) (last_tool_run : string)
        (scores : list Row) (t : string) (w : Qc) :
  driver self last_tool_run = Ok scores ->
  scores <> [] ->
  in_catalog (session_weights self) scores ->
  NoDup (map fst scores) ->
  weight_of t (session_weights self) = Some w ->
  let self' := state_after (update_recommendations last_tool_run) self in
  is_ok (outcome (update_recommendations last_tool_run) self) = true
  /\ (forall c, In (t, c) scores ->
        weight_of t (session_weights self')
        = Some (w * alpha self + (1 - alpha self) * c)%Qc)
  /\ (~ In t (map fst scores) ->
      weight_of t (session_weights self') = Some (w * alpha self)%Qc).
Proof.
  intros Hd Hne Hcat Hnd Hw self'. split.
  - unfold outcome.
    now rewrite (update_recommendations_ok self last_tool_run scores Hd Hne Hcat).
  - now apply (decay_then_blend self last_tool_run scores t w).
Qed.

Lemma completed_step_weights_witness :
  let self' := state_after (update_recommendations "B") scenario_step1 in
  is_ok (outcome (update_recommendations "B") scenario_step1) = true
  /\ (forall c, In ("C", c) [("A", dec 5 10); ("D", dec 2 10)] ->
        weight_of "C" (session_weights self')
        = Some (dec 28 100 * alpha scenario_step1 + (1 - alpha scenario_step1) * c)%Qc)
  /\ (~ In "C" (map fst [("A", dec 5 10); ("D", dec 2 10)]) ->
      weight_of "C" (session_weights self')
      = Some (dec 28 100 * alpha scenario_step1)%Qc).
Proof.
  apply (completed_step_weights scenario_step1 "B"
           [("A", dec 5 10); ("D", dec 2 10)] "C" (dec 28 100)).
  - reflexivity.
  - discriminate.
  - intros r [<-|[<-|[]]]; unfold scenario_step1;
      rewrite update_recommendations_index; simpl; tauto.
  - simpl. repeat constructor; simpl; intros H; intuition discriminate.
  - rewrite scenario_step1_weights. reflexivity.
Defined.

(** X3.  The value a completed call returns has at most five rows, in
    descending order of weight; each is a row of the updated weights with a
    label other than the tool just run; and a row of the updated weights
    with such a label that is not returned weighs no more than any
    returned row. *)
Theorem recommendations_are_top_five
        (self : UserSessionRecommender) (last_tool_run : string) (recs : pd.Frame) :
  outcome (update_recommendations last_tool_run) self = Ok recs ->
  let w' := session_weights (state_after (update_recommendations last_tool_run) self) in
  (List.length recs <= 5)%nat
  /\ StronglySorted desc recs
  /\ (forall r, In r recs -> In r w' /\ fst r <> last_tool_run)
  /\ (forall r, In r w' -> fst r <> last_tool_run ->
        In r recs
        \/ (List.length recs = 5%nat /\ forall r', In r' recs -> (snd r <= snd r')%Qc)).
Proof.
  unfold outcome, state_after.
  destruct (update_recommendations_cases self last_tool_run)
    as [[e ->] | [[scores ->] | (pre & t' & ->)]]; cbn [fst snd]; try discriminate.
  set (w1 := blended (alpha self) scores (pd.imul (alpha self) (session_weights self))).
  intros H. cbn [session_weights].
  assert (E : recs = pd.head 5 (pd.sort_values (pd.drop last_tool_run w1)))
    by congruence.
  rewrite E. clear H E. unfold pd.head, pd.sort_values.
  split; [apply firstn_le_length|].
  split; [apply StronglySorted_firstn, sort_desc_sorted|].
  split.
  - intros r Hr. apply firstn_In in Hr.
    apply (Permutation_in _ (sort_desc_perm _)) in Hr. now apply in_drop in Hr.
  - intros r Hr Hne.
    assert (Hin : In r (sort_desc (pd.drop last_tool_run w1))).
    { apply (Permutation_in _ (Permutation_sym (sort_desc_perm _))).
      now apply in_drop. }
    destruct (sorted_firstn_complete desc 5 _ _ (sort_desc_sorted _) Hin)
      as [H | [Hlen Hle]]; [now left | right].
    split; [exact Hlen|]. intros r' Hr'. exact (Hle r' Hr').
Qed.

Lemma recommendations_are_top_five_witness :
  let recs := [("B", dec 56 100); ("C", dec 28 100); ("D", dec 0 1)] in
  let w' := session_weights (state_after (update_recommendations "A") scenario_start) in
  (List.length recs <= 5)%nat
  /\ StronglySorted desc recs
  /\ (forall r, In r recs -> In r w' /\ fst r <> "A")
  /\ (forall r, In r w' -> fst r <> "A" ->
        In r recs
        \/ (List.length recs = 5%nat /\ forall r', In r' recs -> (snd r <= snd r')%Qc)).
Proof.
  apply (recommendations_are_top_five scenario_start "A").
  exact scenario_step1_ranking.
Defined.

(** X4.  With [alpha = 1] no call changes any weight, whatever the store
    answers and whether the call completes or raises. *)
Theorem alpha_one_freezes_weights
        (self : UserSessionRecommender) (last_tool_run : string) :
  alpha self = 1%Qc ->
  session_weights (state_after (update_recommendations last_tool_run) self)
  = session_weights self.
Proof.
  intros Ha.
  destruct (update_recommendations_effect self last_tool_run)
    as [-> | (scores & pre & post & _ & _ & ->)]; [reflexivity|].
  cbn [session_weights]. rewrite Ha. unfold blended, pd.imul.
  rewrite map_map. rewrite <- (map_id (session_weights self)) at 2.
  apply map_ext. intros [t w]. simpl. f_equal. ring.
Qed.

Lemma alpha_one_freezes_weights_witness :
  session_weights
    (state_after (update_recommendations "A")
       (mkRecommender scenario_driver 1%Qc [("A", dec 1 2); ("B", dec 1 4)]))
  = [("A", dec 1 2); ("B", dec 1 4)].
Proof.
  apply (alpha_one_freezes_weights
           (mkRecommender scenario_driver 1%Qc [("A", dec 1 2); ("B", dec 1 4)]) "A").
  reflexivity.
Defined.

(** X5.  With [alpha = 0] a completed call forgets the past: every tool
    then weighs the sum of the scores this call's scorer result lists for
    it, whatever it weighed before. *)
Theorem alpha_zero_keeps_last_scores_only
        (self : UserSessionRecommender) (last_tool_run : string) (scores : list Row) :
  alpha self = 0%Qc ->
  driver self last_tool_run = Ok scores ->
  scores <> [] ->
  in_catalog (session_weights self) scores ->
  session_weights (state_after (update_recommendations last_tool_run) self)
  = map (fun r : Row => (fst r, score_sum (fst r) scores)) (session_weights self).
Proof.
  intros Ha Hd Hne Hcat. unfold state_after.
  rewrite (update_recommendations_ok self last_tool_run scores Hd Hne Hcat).
  cbn [snd session_weights]. rewrite Ha. unfold blended, pd.imul.
  rewrite map_map. apply map_ext. intros [t w]. simpl. f_equal. ring.
Qed.

Lemma alpha_zero_keeps_last_scores_only_witness :
  let self := mkRecommender scenario_driver 0%Qc
                [("A", dec 1 2); ("B", dec 1 4); ("C", dec 1 8)] in
  session_weights (state_after (update_recommendations "A") self)
  = map (fun r : Row => (fst r, score_sum (fst r) [("B", dec 8 10); ("C", dec 4 10)]))
        (session_weights self).
Proof.
  apply (alpha_zero_keeps_last_scores_only
           (mkRecommender scenario_driver 0%Qc
              [("A", dec 1 2); ("B", dec 1 4); ("C", dec 1 8)])
           "A" [("B", dec 8 10); ("C", dec 4 10)]).
  - reflexivity.
  - reflexivity.
  - discriminate.
  - intros r [<-|[<-|[]]]; simpl; tauto.
Defined.

Lemma unit_interval_0 : unit_interval 0%Qc.
Proof. split; [apply Qcle_refl | discriminate]. Qed.

Lemma Qc_convex (w a s : Qc) :
  unit_interval w -> unit_interval a -> unit_interval s ->
  unit_interval (w * a + (1 - a) * s)%Qc.
Proof.
  intros [Hw0 Hw1] [Ha0 Ha1] [Hs0 Hs1].
  assert (Hb0 : (0 <= 1 - a)%Qc).
  { apply Qcle_minus_iff in Ha1. exact Ha1. }
  split.
  - replace 0%Qc with (0 * a + 0 * s)%Qc by ring.
    apply Qcplus_le_compat; apply Qcmult_le_compat_r; assumption.
  - apply Qcle_trans with (1 * a + (1 - a) * 1)%Qc.
    + apply Qcplus_le_compat.
      * now apply Qcmult_le_compat_r.
      * rewrite (Qcmult_comm (1 - a) s), (Qcmult_comm (1 - a) 1).
        now apply Qcmult_le_compat_r.
    + replace (1 * a + (1 - a) * 1)%Qc with 1%Qc by ring. apply Qcle_refl.
Qed.

Lemma score_sum_unit (t : string) (scores : list Row) :
  Forall (fun r : Row => unit_interval (snd r)) scores ->
  NoDup (map fst scores) ->
  unit_interval (score_sum t scores).
Proof.
  intros Hall Hnd.
  destruct (in_dec string_dec t (map fst scores)) as [Hin|Hout].
  - apply in_map_iff in Hin as [[t' c] [E Hin]]. simpl in E. subst t'.
    rewrite (score_sum_unique t c scores Hnd Hin).
    rewrite Forall_forall in Hall. exact (Hall _ Hin).
  - rewrite score_sum_absent by assumption. apply unit_interval_0.
Qed.

Lemma query_rows_unit (g : Graph) (lastTool : string) :
  Forall (fun r : Row => unit_interval (snd r)) (cypher.query g lastTool).
Proof.
  apply Forall_forall. intros [t c] H. simpl. unfold cypher.query in H.
  apply firstn_In in H. apply (Permutation_in _ (sort_desc_perm _)) in H.
  destruct (in_dec string_dec lastTool (tools g)) as [Hin|Hout].
  - apply in_scored in H; [|assumption]. destruct H as (_ & Hpos & ->).
    unfold spec_score. pose proof (spec_m_le_n g lastTool t).
    apply confidence_bounds; lia.
  - rewrite scored_unknown_tool in H by assumption. contradiction.
Qed.

Lemma NoDup_query (g : Graph) (lastTool : string) :
  NoDup (map fst (cypher.query g lastTool)).
Proof.
  unfold cypher.query. rewrite <- firstn_map. apply NoDup_firstn.
  eapply Permutation_NoDup; [|apply NoDup_scored_any].
  symmetry. apply Permutation_map, sort_desc_perm.
Qed.

(** X7.  With a store holding a graph and [0 <= alpha <= 1], every weight
    stays in [[0, 1]] after any sequence of calls, completed or raised,
    whatever the catalog. *)
Theorem graph_weights_stay_in_unit_interval
        (g : Graph) (catalog : list string) (a : Qc) (steps : list string) :
  unit_interval a ->
  Forall (fun r : Row => unit_interval (snd r))
         (session_weights (run_steps steps (init (neo4j g) catalog a))).
Proof.
  intros Ha. induction steps as [|s steps IH] using rev_ind.
  - simpl. apply Forall_forall. intros r Hr.
    apply in_map_iff in Hr as [u [<- _]]. apply unit_interval_0.
  - rewrite run_steps_snoc.
    set (self := run_steps steps (init (neo4j g) catalog a)) in *.
    destruct (run_steps_fields steps (init (neo4j g) catalog a)) as (Hdrv & Hal & _).
    fold self in Hdrv, Hal. simpl in Hdrv, Hal.
    destruct (update_recommendations_effect self s)
      as [-> | (scores & pre & post & Hd & E & ->)]; [exact IH|].
    cbn [session_weights]. rewrite Hal.
    rewrite Hdrv in Hd. unfold neo4j in Hd. injection Hd as Hd.
    assert (Hpre : Forall (fun r : Row => unit_interval (snd r)) pre).
    { pose proof (query_rows_unit g s) as H. rewrite Hd, E in H.
      now apply Forall_app in H. }
    assert (Hnd : NoDup (map fst pre)).
    { pose proof (NoDup_query g s) as H. rewrite Hd, E, map_app in H.
      now apply NoDup_app_remove_r in H. }
    unfold blended, pd.imul. rewrite map_map. apply Forall_forall.
    intros r Hr. apply in_map_iff in Hr as [[t w] [<- Hin]]. simpl.
    apply Qc_convex; [|exact Ha|now apply score_sum_unit].
    rewrite Forall_forall in IH. exact (IH _ Hin).
Qed.

Lemma graph_weights_stay_in_unit_interval_witness :
  Forall (fun r : Row => unit_interval (snd r))
         (session_weights
            (run_steps ["A"; "E"; "B"]
               (init (neo4j demo_graph) (tools demo_graph) default_alpha))).
Proof.
  apply (graph_weights_stay_in_unit_interval demo_graph (tools demo_graph)
           default_alpha ["A"; "E"; "B"]).
  split; [discriminate | discriminate].
Defined.

(** * Further properties of the confidence query *)

Lemma firstn_sort_desc_nil (k : nat) (l : list Row) :
  firstn (S k) (sort_desc l) = [] <-> l = [].
Proof.
  split; [|intros ->; reflexivity].
  intros H. destruct (sort_desc l) as [|r l'] eqn:E; [|discriminate].
  apply Permutation_nil. rewrite <- E. apply sort_desc_perm.
Qed.

Lemma in_rows_last_tool_sessions_executed (g : Graph) (lastTool lt s : string) :
  In (lt, s) (cypher.rows_last_tool_sessions g lastTool) ->
  exists j, In (j, lastTool) (EXECUTED g).
Proof.
  unfold cypher.rows_last_tool_sessions, cypher.match_last_tool.
  rewrite in_flat_map. intros [x [Hx H]].
  apply filter_In in Hx as [_ E]. apply String.eqb_eq in E. subst x.
  apply in_map_iff in H as [s' [_ H]].
  apply in_match_sessions in H as [j [_ He]]. now exists j.
Qed.

(** X8.  A tool that is no [Tool] node of the graph, or that no job
    executed, gets an empty result from the query: no row, and no error. *)
Theorem query_without_history_is_empty (g : Graph) (lastTool : string) :
  ~ In lastTool (tools g) \/ (forall j, ~ In (j, lastTool) (EXECUTED g)) ->
  cypher.query g lastTool = [].
Proof.
  intros [Hout | Hnone]; unfold cypher.query.
  - now rewrite scored_unknown_tool.
  - assert (E : cypher.rows_last_tool_sessions g lastTool = []).
    { destruct (cypher.rows_last_tool_sessions g lastTool) as [|[lt s] l] eqn:E;
        [reflexivity|exfalso].
      destruct (in_rows_last_tool_sessions_executed g lastTool lt s) as [j Hj].
      - rewrite E. now left.
      - exact (Hnone j Hj). }
    unfold cypher.scored. rewrite E. reflexivity.
Qed.

Lemma query_without_history_is_empty_witness :
  cypher.query demo_graph "Z" = [].
Proof.
  apply (query_without_history_is_empty demo_graph "Z").
  left. simpl. intros H. repeat (destruct H as [H|H]; [discriminate|]). exact H.
Defined.

(** X9.  On a well-formed graph the query returns no row exactly when no
    session containing [lastTool] contains a job executing another tool. *)
Theorem query_empty_iff_no_cooccurrence (g : Graph) (lastTool : string) :
  well_formed g = true ->
  cypher.query g lastTool = []
  <-> (forall s t, In s (spec_S g lastTool) ->
                   session_contains g s t = true -> t = lastTool).
Proof.
  intros wf. unfold cypher.query. rewrite firstn_sort_desc_nil. split.
  - intros E s t Hs Hc.
    destruct (string_dec t lastTool) as [|Hne]; [assumption|exfalso].
    assert (Hpos : (0 < spec_m g lastTool t)%nat)
      by (apply spec_m_pos; now exists s).
    assert (Hin : In (t, spec_score g lastTool t) (cypher.scored g lastTool))
      by (apply in_scored_wf; auto).
    now rewrite E in Hin.
  - intros H. destruct (cypher.scored g lastTool) as [|[t c] l] eqn:E; [reflexivity|].
    exfalso.
    assert (Hin : In (t, c) (cypher.scored g lastTool)) by (rewrite E; now left).
    apply in_scored_wf in Hin; [|assumption].
    destruct Hin as (Hne & Hpos & _).
    apply spec_m_pos in Hpos as [s [Hs Hc]]. exact (Hne (H s t Hs Hc)).
Qed.

Lemma query_empty_iff_no_cooccurrence_witness :
  spec_S lonely_graph "A" = ["s1"]
  /\ (cypher.query lonely_graph "A" = []
      <-> (forall s t, In s (spec_S lonely_graph "A") ->
                       session_contains lonely_graph s t = true -> t = "A")).
Proof.
  split; [reflexivity|].
  apply (query_empty_iff_no_cooccurrence lonely_graph "A"). reflexivity.
Defined.

Lemma filter_comm {A} (f h : A -> bool) (l : list A) :
  filter f (filter h l) = filter h (filter f l).
Proof.
  induction l as [|x l IH]; simpl; [reflexivity|].
  destruct (h x) eqn:Eh, (f x) eqn:Ef; simpl; rewrite ?Eh, ?Ef, IH; reflexivity.
Qed.

Lemma spec_m_sym (g : Graph) (a b : string) : spec_m g a b = spec_m g b a.
Proof. unfold spec_m, spec_S. now rewrite filter_comm. Qed.

Lemma filter_filter {A} (f h : A -> bool) (l : list A) :
  filter f (filter h l) = filter (fun x => h x && f x) l.
Proof.
  induction l as [|x l IH]; simpl; [reflexivity|].
  destruct (h x); simpl; [destruct (f x)|]; now rewrite IH.
Qed.

Lemma spec_m_both (g : Graph) (a b : string) :
  spec_m g a b = List.length (sessions_with_both g a b).
Proof. unfold spec_m, spec_S, sessions_with_both. now rewrite filter_filter. Qed.

(** X10.  The two scores that relate a pair of tools share their numerator:
    if the rows before [ORDER BY] and [LIMIT] score [b] by [cb] for
    [lastTool = a] and [a] by [ca] for [lastTool = b], then [cb = m / n(a)]
    and [ca = m / n(b)], where [m > 0] is the number of sessions that
    contain both tools and [n(a)], [n(b)] are the numbers of sessions that
    contain [a] and [b]. *)
Theorem joint_count_is_symmetric (g : Graph) (a b : string) (ca cb : Qc) :
  well_formed g = true ->
  In (b, cb) (cypher.scored g a) ->
  In (a, ca) (cypher.scored g b) ->
  let m := List.length (sessions_with_both g a b) in
  (0 < m)%nat
  /\ cb = Q2Qc (Z.of_nat m # Pos.of_nat (spec_n g a))
  /\ ca = Q2Qc (Z.of_nat m # Pos.of_nat (spec_n g b)).
Proof.
  intros wf Hb Ha m. subst m.
  apply in_scored_wf in Hb; [|assumption]. apply in_scored_wf in Ha; [|assumption].
  destruct Hb as (_ & Hposb & ->). destruct Ha as (_ & Hposa & ->).
  pose proof (spec_m_le_n g a b) as Hlea. pose proof (spec_m_le_n g b a) as Hleb.
  unfold spec_score.
  rewrite (confidence_is_ratio (spec_m g a b)) by lia.
  rewrite (confidence_is_ratio (spec_m g b a)) by lia.
  rewrite (spec_m_sym g b a), spec_m_both in *.
  repeat split. exact Hposb.
Qed.

Lemma demo_scored_B : cypher.scored demo_graph "B" = [("A", dec 1 2); ("D", dec 1 2)].
Proof. by_rows. Qed.

Lemma demo_scored_A : cypher.scored demo_graph "A" = [("B", dec 1 2); ("C", dec 1 2)].
Proof. by_rows. Qed.

Lemma joint_count_is_symmetric_witness :
  let m := List.length (sessions_with_both demo_graph "A" "B") in
  (0 < m)%nat
  /\ dec 1 2 = Q2Qc (Z.of_nat m # Pos.of_nat (spec_n demo_graph "A"))
  /\ dec 1 2 = Q2Qc (Z.of_nat m # Pos.of_nat (spec_n demo_graph "B")).
Proof.
  apply (joint_count_is_symmetric demo_graph "A" "B" (dec 1 2) (dec 1 2)).
  - reflexivity.
  - rewrite demo_scored_A. now left.
  - rewrite demo_scored_B. now left.
Defined.

Section RepeatedTool.

Variables (g : Graph) (j t s : string).
Hypothesis wf : well_formed g = true.
Hypothesis Hfresh : fresh_job g j.
Hypothesis Hran : session_contains g s t = true.

Lemma add_job_well_formed : well_formed (add_job g j t s) = true.
Proof.
  unfold well_formed, add_job; simpl. apply andb_true_iff. split; [|exact wf].
  apply session_contains_iff in Hran as [j0 [_ He]].
  unfold well_formed in wf. rewrite forallb_forall in wf. exact (wf _ He).
Qed.

Lemma add_job_session_contains (s0 t0 : string) :
  session_contains (add_job g j t s) s0 t0 = session_contains g s0 t0.
Proof.
  destruct Hfresh as [HfE HfS].
  apply eq_true_iff_eq. rewrite !session_contains_iff. unfold add_job; simpl. split.
  - intros [j' [[Ei|Hi] [Ee|He]]].
    + injection Ei as <- <-. injection Ee as <-.
      now apply session_contains_iff.
    + injection Ei as <- <-. exfalso. apply HfE.
      change j with (fst (j, t0)). now apply in_map.
    + injection Ee as <- <-. exfalso. apply HfS.
      change j with (fst (j, s0)). now apply in_map.
    + now exists j'.
  - intros [j' [Hi He]]. exists j'. auto.
Qed.

Lemma add_job_spec_S (lastTool : string) :
  spec_S (add_job g j t s) lastTool = spec_S g lastTool.
Proof.
  unfold spec_S. simpl.
  assert (Hs : In s (map snd (IN_SESSION g))).
  { apply session_contains_iff in Hran as [j0 [Hi _]].
    change s with (snd (j0, s)). now apply in_map. }
  destruct (in_dec string_dec s (map snd (IN_SESSION g))) as [_|Hn]; [|contradiction].
  apply filter_ext. intros s0. apply add_job_session_contains.
Qed.

Lemma add_job_spec_m (lastTool u : string) :
  spec_m (add_job g j t s) lastTool u = spec_m g lastTool u.
Proof.
  unfold spec_m. rewrite add_job_spec_S. f_equal.
  apply filter_ext. intros s0. apply add_job_session_contains.
Qed.

End RepeatedTool.

(** X11.  Running a tool once more in a session where it already ran
    changes no score: on a well-formed graph, adding a new job that
    executes [t] in a session [s] already containing [t] leaves the rows
    the query computes before [ORDER BY] and [LIMIT] the same, for every
    query tool. *)
Theorem repeated_tool_changes_no_score
        (g : Graph) (j t s lastTool u : string) (c : Qc) :
  well_formed g = true ->
  fresh_job g j ->
  session_contains g s t = true ->
  In (u, c) (cypher.scored (add_job g j t s) lastTool)
  <-> In (u, c) (cypher.scored g lastTool).
Proof.
  intros wf Hfresh Hran.
  rewrite (in_scored_wf (add_job g j t s)) by now apply add_job_well_formed.
  rewrite (in_scored_wf g) by assumption.
  unfold spec_score, spec_n.
  now rewrite add_job_spec_m, add_job_spec_S.
Qed.

Lemma repeated_tool_changes_no_score_witness :
  In ("B", dec 1 2) (cypher.scored (add_job demo_graph "j9" "B" "s1") "A")
  <-> In ("B", dec 1 2) (cypher.scored demo_graph "A").
Proof.
  apply (repeated_tool_changes_no_score demo_graph "j9" "B" "s1" "A" "B" (dec 1 2)).
  - reflexivity.
  - split; simpl; intros H;
      repeat (destruct H as [H|H]; [discriminate|]); exact H.
  - reflexivity.
Defined.

(** * The program as a whole *)

Lemma query_tools_are_nodes (g : Graph) (lastTool : string) (r : Row) :
  well_formed g = true ->
  In r (cypher.query g lastTool) -> In (fst r) (tools g).
Proof.
  intros wf H. destruct r as [t c]. unfold cypher.query in H.
  apply firstn_In in H. apply (Permutation_in _ (sort_desc_perm _)) in H.
  apply in_scored_wf in H; [|assumption]. destruct H as (_ & Hpos & _).
  apply spec_m_pos in Hpos as [s [_ Hc]].
  apply session_contains_iff in Hc as [j [_ He]].
  unfold well_formed in wf. rewrite forallb_forall in wf.
  specialize (wf _ He). simpl in wf.
  apply existsb_exists in wf as [x [Hx E]].
  apply String.eqb_eq in E. simpl. now subst.
Qed.

Section GraphSession.

Variables (g : Graph) (a : Qc) (steps : list string).
Hypothesis wf : well_formed g = true.

Let self : UserSessionRecommender :=
  run_steps steps (init (neo4j g) (tools g) a).

Lemma graph_session_fields :
  driver self = neo4j g /\ alpha self = a
  /\ pd.index (session_weights self) = tools g.
Proof.
  destruct (run_steps_fields steps (init (neo4j g) (tools g) a)) as (Hd & Ha & Hi).
  fold self in Hd, Ha, Hi. repeat split; try assumption.
  rewrite Hi. unfold init, pd.index; simpl. rewrite map_map. simpl. apply map_id.
Qed.

Lemma graph_step_empty (last_tool_run : string) :
  cypher.query g last_tool_run = [] ->
  update_recommendations last_tool_run self
  = (Raise (KeyError "None of ['recommendedTool'] are in the columns"), self).
Proof.
  intros E. apply update_recommendations_no_row.
  destruct graph_session_fields as (-> & _). unfold neo4j. now rewrite E.
Qed.

Lemma graph_step_rows (last_tool_run : string) :
  cypher.query g last_tool_run <> [] ->
  update_recommendations last_tool_run self
  = (Ok (pd.head 5 (pd.sort_values (pd.drop last_tool_run
           (blended a (cypher.query g last_tool_run)
                    (pd.imul a (session_weights self)))))),
     mkRecommender (neo4j g) a
       (blended a (cypher.query g last_tool_run)
                (pd.imul a (session_weights self)))).
Proof.
  intros Hne. destruct graph_session_fields as (Hd & Ha & Hi).
  assert (Hq : driver self last_tool_run = Ok (cypher.query g last_tool_run))
    by now rewrite Hd.
  assert (Hcat : in_catalog (session_weights self) (cypher.query g last_tool_run)).
  { intros r Hr. rewrite Hi. now apply (query_tools_are_nodes g last_tool_run). }
  pose proof (update_recommendations_ok self last_tool_run _ Hq Hne Hcat) as H.
  cbv zeta in H. rewrite Hd, Ha in H. exact H.
Qed.

End GraphSession.

(** X12.  When the store holds a well-formed graph and the catalog is its
    list of tools, as in the main program, the blend loop never raises: at
    any point of the session a call either completes, every tool then
    weighing [w * alpha + (1 - alpha) * c] with [w] its weight before and
    [c] the score the query returned for it ([0] when it returned none),
    or raises the [KeyError] of [set_index] and changes nothing, the
    latter exactly when the query returns no row. *)
Theorem graph_session_step
        (g : Graph) (a : Qc) (steps : list string) (last_tool_run : string) :
  well_formed g = true ->
  let self := run_steps steps (init (neo4j g) (tools g) a) in
  let self' := state_after (update_recommendations last_tool_run) self in
  (cypher.query g last_tool_run = [] ->
     outcome (update_recommendations last_tool_run) self
     = Raise (KeyError "None of ['recommendedTool'] are in the columns")
     /\ self' = self)
  /\ (cypher.query g last_tool_run <> [] ->
        is_ok (outcome (update_recommendations last_tool_run) self) = true
        /\ session_weights self'
           = map (fun r : Row =>
                    (fst r, (snd r * a
                             + (1 - a) * score_sum (fst r)
                                                   (cypher.query g last_tool_run))%Qc))
                 (session_weights self))
  /\ (forall t c, In (t, c) (cypher.query g last_tool_run) ->
        score_sum t (cypher.query g last_tool_run) = c).
Proof.
  intros wf self self'. subst self'. unfold outcome, state_after.
  split; [|split].
  - intros E. subst self. now rewrite (graph_step_empty g a steps last_tool_run E).
  - intros Hne. subst self.
    rewrite (graph_step_rows g a steps wf last_tool_run Hne).
    split; [reflexivity|]. cbn [snd session_weights].
    unfold blended, pd.imul. now rewrite map_map.
  - intros t c Hin. apply score_sum_unique; [apply NoDup_query | exact Hin].
Qed.

Lemma graph_session_step_witness :
  let self := run_steps ["A"] (init (neo4j demo_graph) (tools demo_graph) default_alpha) in
  let self' := state_after (update_recommendations "B") self in
  (cypher.query demo_graph "B" = [] ->
     outcome (update_recommendations "B") self
     = Raise (KeyError "None of ['recommendedTool'] are in the columns")
     /\ self' = self)
  /\ (cypher.query demo_graph "B" <> [] ->
        is_ok (outcome (update_recommendations "B") self) = true
        /\ session_weights self'
           = map (fun r : Row =>
                    (fst r, (snd r * default_alpha
                             + (1 - default_alpha)
                               * score_sum (fst r) (cypher.query demo_graph "B"))%Qc))
                 (session_weights self))
  /\ (forall t c, In (t, c) (cypher.query demo_graph "B") ->
        score_sum t (cypher.query demo_graph "B") = c).
Proof.
  apply (graph_session_step demo_graph default_alpha ["A"] "B").
  reflexivity.
Defined.

Section Main.

Variable g : Graph.
Hypothesis wf : well_formed g = true.

Lemma step_block_graph (n : nat) (tool : string) (steps : list string)
      (k : UserSessionRecommender -> list printed) :
  let self := run_steps steps (init (neo4j g) (tools g) default_alpha) in
  (cypher.query g tool = [] ->
     step_block n tool k self
     = [ErrorMessage (KeyError "None of ['recommendedTool'] are in the columns");
        CheckSetupAdvice])
  /\ (cypher.query g tool <> [] ->
        exists recs mem,
          step_block n tool k self
          = Recommendations n recs :: Memory mem
            :: k (run_steps (steps ++ [tool])
                            (init (neo4j g) (tools g) default_alpha))).
Proof.
  intros self. unfold step_block. split.
  - intros E. subst self. now rewrite (graph_step_empty g default_alpha steps tool E).
  - intros Hne. rewrite run_steps_snoc. fold self. unfold state_after.
    subst self. rewrite (graph_step_rows g default_alpha steps wf tool Hne).
    cbn [snd]. eexists. eexists. reflexivity.
Qed.

End Main.

Lemma nil_or_not {A} (l : list A) : l = [] \/ l <> [].
Proof. destruct l; [now left | right; discriminate]. Qed.

Lemma main_has_shape (g : Graph) :
  well_formed g = true -> main_shape g (main (connected g)).
Proof.
  intros wf. unfold main, connected. cbn [list_tools confidence_query].
  set (k3 := fun _ : UserSessionRecommender => @nil printed).
  set (k2 := step_block 3 "MultiQC" k3).
  set (k1 := step_block 2 "Trimmomatic" k2).
  pose proof (step_block_graph g wf 1 "FastQC" [] k1) as [H1e H1r].
  pose proof (step_block_graph g wf 2 "Trimmomatic" ["FastQC"] k2) as [H2e H2r].
  pose proof (step_block_graph g wf 3 "MultiQC" ["FastQC"; "Trimmomatic"] k3)
    as [H3e H3r].
  cbv zeta in H1e, H1r, H2e, H2r, H3e, H3r.
  change (run_steps [] (init (neo4j g) (tools g) default_alpha))
    with (init (neo4j g) (tools g) default_alpha) in H1e, H1r.
  simpl app in H1r, H2r, H3r.
  destruct (nil_or_not (cypher.query g "FastQC")) as [E1|N1].
  { rewrite (H1e E1). now constructor. }
  destruct (H1r N1) as (recs1 & mem1 & ->). unfold k1 at 1.
  destruct (nil_or_not (cypher.query g "Trimmomatic")) as [E2|N2].
  { rewrite (H2e E2). now constructor. }
  destruct (H2r N2) as (recs2 & mem2 & ->). unfold k2 at 1.
  destruct (nil_or_not (cypher.query g "MultiQC")) as [E3|N3].
  { rewrite (H3e E3). now constructor. }
  destruct (H3r N3) as (recs3 & mem3 & ->). unfold k3.
  now constructor.
Qed.

(** X13.  On a reachable store holding a well-formed graph, the main
    program prints an exception exactly when one of [FastQC],
    [Trimmomatic], [MultiQC] gets no row from the confidence query; the
    exception is then the [KeyError] of [set_index], only the advice of
    the [except] clause is printed after it, and a step's recommendations
    are printed only if its query and those of the steps before it
    returned rows. *)
Theorem main_fails_iff_a_demo_tool_has_no_row (g : Graph) :
  well_formed g = true ->
  ((exists e, In (ErrorMessage e) (main (connected g)))
   <-> (cypher.query g "FastQC" = [] \/ cypher.query g "Trimmomatic" = []
        \/ cypher.query g "MultiQC" = []))
  /\ (forall e, In (ErrorMessage e) (main (connected g)) ->
        e = KeyError "None of ['recommendedTool'] are in the columns")
  /\ (forall e before after,
        main (connected g) = before ++ ErrorMessage e :: after ->
        after = [CheckSetupAdvice])
  /\ (forall df, In (Recommendations 1 df) (main (connected g)) ->
        cypher.query g "FastQC" <> [])
  /\ (forall df, In (Recommendations 2 df) (main (connected g)) ->
        cypher.query g "FastQC" <> [] /\ cypher.query g "Trimmomatic" <> [])
  /\ (forall df, In (Recommendations 3 df) (main (connected g)) ->
        cypher.query g "FastQC" <> [] /\ cypher.query g "Trimmomatic" <> []
        /\ cypher.query g "MultiQC" <> []).
Proof.
  intros wf.
  destruct (main_has_shape g wf) as [E1 | r1 m1 N1 E2 | r1 m1 r2 m2 N1 N2 E3
                                     | r1 m1 r2 m2 r3 m3 N1 N2 N3].
  - split; [|split; [|split; [|split; [|split]]]].
    + split; [tauto | intros _; eexists; now left].
    + intros e H. simpl in H.
      repeat (destruct H as [H|H]; try discriminate); [congruence | contradiction].
    + intros e before after H.
      destruct before as [|p [|q before]]; simpl in H; try congruence.
      destruct before; discriminate.
    + intros df H. simpl in H.
      repeat (destruct H as [H|H]; try discriminate). contradiction.
    + intros df H. simpl in H.
      repeat (destruct H as [H|H]; try discriminate). contradiction.
    + intros df H. simpl in H.
      repeat (destruct H as [H|H]; try discriminate). contradiction.
  - split; [|split; [|split; [|split; [|split]]]].
    + split; [tauto | intros _; eexists; simpl; eauto].
    + intros e H. simpl in H.
      repeat (destruct H as [H|H]; try discriminate); [congruence | contradiction].
    + intros e before after H.
      destruct before as [|p [|q [|q1 [|q2 before]]]]; simpl in H; try congruence.
      destruct before; discriminate.
    + intros df _. exact N1.
    + intros df H. simpl in H.
      repeat (destruct H as [H|H]; try discriminate). contradiction.
    + intros df H. simpl in H.
      repeat (destruct H as [H|H]; try discriminate). contradiction.
  - split; [|split; [|split; [|split; [|split]]]].
    + split; [tauto | intros _; eexists; simpl; eauto 6].
    + intros e H. simpl in H.
      repeat (destruct H as [H|H]; try discriminate); [congruence | contradiction].
    + intros e before after H.
      destruct before as [|p [|q [|q1 [|q2 [|q3 [|q4 before]]]]]];
        simpl in H; try congruence.
      destruct before; discriminate.
    + intros df _. exact N1.
    + intros df _. split; assumption.
    + intros df H. simpl in H.
      repeat (destruct H as [H|H]; try discriminate). contradiction.
  - split; [|split; [|split; [|split; [|split]]]].
    + split.
      * intros [e H]. simpl in H.
        repeat (destruct H as [H|H]; try discriminate). contradiction.
      * tauto.
    + intros e H. simpl in H.
      repeat (destruct H as [H|H]; try discriminate). contradiction.
    + intros e before after H. exfalso.
      destruct before as [|p [|q [|q1 [|q2 [|q3 [|q4 [|q5 before]]]]]]];
        simpl in H; congruence.
    + intros df _. exact N1.
    + intros df _. split; assumption.
    + intros df _. repeat split; assumption.
Qed.

(** On [partial_galaxy_graph] the first two steps complete and the third
    raises. *)
Lemma partial_galaxy_run :
  exists r1 m1 r2 m2,
    main (connected partial_galaxy_graph)
    = [Recommendations 1 r1; Memory m1; Recommendations 2 r2; Memory m2;
       ErrorMessage (KeyError "None of ['recommendedTool'] are in the columns");
       CheckSetupAdvice].
Proof. do 4 eexists. vm_compute. reflexivity. Qed.

Lemma main_fails_iff_a_demo_tool_has_no_row_witness :
  ((exists e, In (ErrorMessage e) (main (connected partial_galaxy_graph)))
   <-> (cypher.query partial_galaxy_graph "FastQC" = []
        \/ cypher.query partial_galaxy_graph "Trimmomatic" = []
        \/ cypher.query partial_galaxy_graph "MultiQC" = []))
  /\ (forall e, In (ErrorMessage e) (main (connected partial_galaxy_graph)) ->
        e = KeyError "None of ['recommendedTool'] are in the columns")
  /\ (forall e before after,
        main (connected partial_galaxy_graph) = before ++ ErrorMessage e :: after ->
        after = [CheckSetupAdvice])
  /\ (forall df, In (Recommendations 1 df) (main (connected partial_galaxy_graph)) ->
        cypher.query partial_galaxy_graph "FastQC" <> [])
  /\ (forall df, In (Recommendations 2 df) (main (connected partial_galaxy_graph)) ->
        cypher.query partial_galaxy_graph "FastQC" <> []
        /\ cypher.query partial_galaxy_graph "Trimmomatic" <> [])
  /\ (forall df, In (Recommendations 3 df) (main (connected partial_galaxy_graph)) ->
        cypher.query partial_galaxy_graph "FastQC" <> []
        /\ cypher.query partial_galaxy_graph "Trimmomatic" <> []
        /\ cypher.query partial_galaxy_graph "MultiQC" <> []).
Proof.
  apply (main_fails_iff_a_demo_tool_has_no_row partial_galaxy_graph). reflexivity.
Defined.

(** * The data seeder *)

Section Seeder.

Import seeder.

Variable d : Draws.

Let job_id (i j k : nat) : string := String.append "job_" (job_hex d i j k).

Lemma job_id_truthy (i j k : nat) : truthy (Some (job_id i j k)) = true.
Proof. reflexivity. Qed.

Lemma map_fst_combine_seq {B} (a : nat) (l : list B) :
  map fst (combine (seq a (List.length l)) l) = seq a (List.length l).
Proof.
  revert a. induction l as [|x l IH]; intros a; simpl; [reflexivity|].
  now rewrite IH.
Qed.

Lemma map_snd_combine_seq {B} (a : nat) (l : list B) :
  map snd (combine (seq a (List.length l)) l) = l.
Proof.
  revert a. induction l as [|x l IH]; intros a; simpl; [reflexivity|].
  now rewrite IH.
Qed.

Lemma precedes_job_commands (i j : nat) (sid : string) (steps : list (nat * string))
      (k0 : nat) :
  precedes_pairs (job_commands d i j sid steps (Some (job_id i j k0)))
  = combine (job_id i j k0 :: map (fun st => job_id i j (fst st)) steps)
            (map (fun st => job_id i j (fst st)) steps).
Proof.
  revert k0. induction steps as [|[k t] steps IH]; intros k0; [reflexivity|].
  cbn [job_commands]. fold (job_id i j k). fold (job_id i j k0).
  rewrite job_id_truthy. cbn [app precedes_pairs flat_map map fst combine].
  f_equal. apply IH.
Qed.

Lemma precedes_job_commands_none (i j : nat) (sid : string)
      (steps : list (nat * string)) :
  precedes_pairs (job_commands d i j sid steps None)
  = combine (map (fun st => job_id i j (fst st)) steps)
            (tl (map (fun st => job_id i j (fst st)) steps)).
Proof.
  destruct steps as [|[k t] steps]; [reflexivity|].
  cbn [job_commands truthy]. fold (job_id i j k).
  cbn [app precedes_pairs flat_map].
  change (flat_map _ ?l) with (precedes_pairs l).
  now rewrite precedes_job_commands.
Qed.

Lemma map_job_steps {B} (f : nat -> B) (a : nat) (ts : list string) :
  map (fun st : nat * string => f (fst st)) (combine (seq a (List.length ts)) ts)
  = map f (seq a (List.length ts)).
Proof.
  rewrite <- (map_map fst f). now rewrite map_fst_combine_seq.
Qed.

Lemma map_pair_combine_seq {B C} (f : nat -> C) (a : nat) (ts : list B) :
  map (fun st : nat * B => (f (fst st), snd st)) (combine (seq a (List.length ts)) ts)
  = combine (map f (seq a (List.length ts))) ts.
Proof.
  revert a. induction ts as [|t ts IH]; intros a; simpl; [reflexivity|].
  now rewrite IH.
Qed.

Lemma map_snd_combine_map_seq {B C} (f : nat -> C) (a : nat) (ts : list B) :
  map snd (combine (map f (seq a (List.length ts))) ts) = ts.
Proof.
  revert a. induction ts as [|t ts IH]; intros a; simpl; [reflexivity|].
  now rewrite IH.
Qed.

Lemma executed_job_commands (i j : nat) (sid : string) (steps : list (nat * string))
      (previous : option string) :
  executed_pairs (job_commands d i j sid steps previous)
  = map (fun st => (job_id i j (fst st), snd st)) steps.
Proof.
  revert previous. induction steps as [|[k t] steps IH]; intros previous;
    [reflexivity|].
  cbn [job_commands]. fold (job_id i j k).
  destruct (truthy previous); [destruct previous|];
    cbn [app executed_pairs flat_map map fst snd]; f_equal; apply IH.
Qed.

End Seeder.

(** X14.  In the seeder's script the [PRECEDES] statements of a session
    link each of its jobs to the next one, in step order, and nothing
    else: they form one chain through the session's jobs. *)
Theorem seeded_session_is_a_chain (d : seeder.Draws) (i j : nat) (user_id : string) :
  seeder.precedes_pairs (seeder.session_commands d i user_id j)
  = combine (seeder.job_ids d i j) (tl (seeder.job_ids d i j)).
Proof.
  unfold seeder.session_commands.
  change (seeder.precedes_pairs (?c :: ?l)) with (seeder.precedes_pairs l).
  rewrite precedes_job_commands_none. unfold seeder.steps_of.
  rewrite (map_job_steps (fun k => String.append "job_" (seeder.job_hex d i j k))
             0 (seeder.session_tools d i j)).
  reflexivity.
Qed.

(** X15.  In the seeder's script every job of a session gets exactly one
    [EXECUTED] statement, for the tool sampled for its step; with the
    draws [random.sample] can make, no tool is executed twice in a
    session. *)
Theorem seeded_job_executes_its_sampled_tool
        (d : seeder.Draws) (i j : nat) (user_id : string) :
  seeder.valid d ->
  seeder.executed_pairs (seeder.session_commands d i user_id j)
  = combine (seeder.job_ids d i j) (seeder.session_tools d i j)
  /\ NoDup (map snd (seeder.executed_pairs (seeder.session_commands d i user_id j)))
  /\ (3 <= List.length (seeder.executed_pairs (seeder.session_commands d i user_id j))
      <= 8)%nat.
Proof.
  intros [_ Hv]. destruct (Hv i j) as (Hlen & Hnd & _).
  assert (E : seeder.executed_pairs (seeder.session_commands d i user_id j)
              = combine (seeder.job_ids d i j) (seeder.session_tools d i j)).
  { unfold seeder.session_commands, seeder.job_ids, seeder.steps_of.
    change (seeder.executed_pairs (?c :: ?l)) with (seeder.executed_pairs l).
    rewrite (executed_job_commands d i j).
    apply (map_pair_combine_seq
             (fun k => String.append "job_" (seeder.job_hex d i j k))). }
  split; [exact E|]. rewrite E. unfold seeder.job_ids. split.
  - now rewrite map_snd_combine_map_seq.
  - rewrite length_combine, length_map, length_seq.
    unfold seeder.MIN_STEPS_PER_SESSION, seeder.MAX_STEPS_PER_SESSION in Hlen. lia.
Qed.

Lemma sample_draws_valid : seeder.valid seeder.sample_draws.
Proof.
  split; [simpl; lia|]. intros i j. simpl. split; [|split].
  - unfold seeder.MIN_STEPS_PER_SESSION, seeder.MAX_STEPS_PER_SESSION. lia.
  - repeat constructor; simpl; intuition discriminate.
  - intros t [<-|[<-|[<-|[]]]]; simpl; tauto.
Qed.

Lemma seeded_job_executes_its_sampled_tool_witness :
  seeder.executed_pairs
    (seeder.session_commands seeder.sample_draws 0 "user_a" 1)
  = combine (seeder.job_ids seeder.sample_draws 0 1)
            (seeder.session_tools seeder.sample_draws 0 1)
  /\ NoDup (map snd (seeder.executed_pairs
                       (seeder.session_commands seeder.sample_draws 0 "user_a" 1)))
  /\ (3 <= List.length (seeder.executed_pairs
                          (seeder.session_commands seeder.sample_draws 0 "user_a" 1))
      <= 8)%nat.
Proof.
  apply (seeded_job_executes_its_sampled_tool seeder.sample_draws 0 1 "user_a").
  exact sample_draws_valid.
Defined.

Section SeederOrder.

Import seeder.

Variable d : Draws.

Lemma existsb_incl {A} (f : A -> bool) (l l' : list A) :
  incl l l' -> existsb f l = true -> existsb f l' = true.
Proof.
  intros Hincl H. apply existsb_exists in H as [x [Hx Hf]].
  apply existsb_exists. exists x. auto.
Qed.

Lemma resolves_incl (before before' : list command) (c : command) :
  incl before before' -> resolves before c = true -> resolves before' c = true.
Proof.
  intros Hincl. destruct c; simpl; try reflexivity.
  - apply existsb_incl; assumption.
  - rewrite !andb_true_iff. intros [H1 H2].
    split; eapply existsb_incl; eassumption.
  - rewrite !andb_true_iff. intros [H1 H2].
    split; eapply existsb_incl; eassumption.
Qed.

Lemma ordered_from_incl (commands before before' : list command) :
  incl before before' ->
  ordered_from before commands = true -> ordered_from before' commands = true.
Proof.
  revert before before'. induction commands as [|c commands IH];
    intros before before' Hincl; simpl; [reflexivity|].
  rewrite !andb_true_iff. intros [H1 H2]. split.
  - eapply resolves_incl; eassumption.
  - apply (IH (before ++ [c])); [|assumption].
    apply incl_app_app; [assumption | apply incl_refl].
Qed.

Lemma ordered_from_app (l1 l2 before : list command) :
  ordered_from before (l1 ++ l2)
  = ordered_from before l1 && ordered_from (before ++ l1) l2.
Proof.
  revert before. induction l1 as [|c l1 IH]; intros before; simpl.
  - now rewrite app_nil_r.
  - rewrite IH, <- app_assoc, andb_assoc. reflexivity.
Qed.

Lemma ordered_from_flat_map {A} (f : A -> list command) (l : list A)
      (before : list command) :
  (forall x before', incl before before' -> In x l ->
                     ordered_from before' (f x) = true) ->
  ordered_from before (flat_map f l) = true.
Proof.
  revert before. induction l as [|x l IH]; intros before H; simpl; [reflexivity|].
  rewrite ordered_from_app. apply andb_true_iff. split.
  - apply H; [apply incl_refl | now left].
  - apply IH. intros y before' Hincl Hy. apply H; [|now right].
    intros c Hc. apply Hincl. apply in_or_app. now left.
Qed.

Lemma ordered_from_merge_tools (l : list string) (before : list command) :
  ordered_from before (map MergeTool l) = true.
Proof.
  revert before. induction l as [|t l IH]; intros before; simpl; auto.
Qed.

Lemma existsb_app_l {A} (f : A -> bool) (l1 l2 : list A) :
  existsb f l1 = true -> existsb f (l1 ++ l2) = true.
Proof. intros H. rewrite existsb_app, H. reflexivity. Qed.

Lemma existsb_app_r {A} (f : A -> bool) (l1 l2 : list A) :
  existsb f l2 = true -> existsb f (l1 ++ l2) = true.
Proof. intros H. rewrite existsb_app, H. apply orb_true_r. Qed.

Lemma ordered_job_commands (i j : nat) (sid : string) (steps : list (nat * string))
      (previous : option string) (before : list command) :
  existsb (creates_session sid) before = true ->
  (forall st, In st steps -> existsb (creates_tool (snd st)) before = true) ->
  match previous with
  | Some p => existsb (creates_job p) before = true
  | None => True
  end ->
  ordered_from before (job_commands d i j sid steps previous) = true.
Proof.
  revert previous before. induction steps as [|[k t] steps IH];
    intros previous before Hs Ht Hp; [reflexivity|].
  cbn [job_commands].
  set (jid := String.append "job_" (job_hex d i j k)).
  cbn [app ordered_from resolves]. rewrite Hs. cbn [andb].
  assert (Hj : existsb (creates_job jid)
                 (before ++ [CreateJob sid jid (timestamp_iso d i j k)]) = true).
  { apply existsb_app_r. simpl. now rewrite String.eqb_refl. }
  rewrite Hj. rewrite existsb_app_l by (apply (Ht (k, t)); now left). cbn [andb].
  assert (Hrest : forall before',
             incl (before ++ [CreateJob sid jid (timestamp_iso d i j k)]) before' ->
             ordered_from before' (job_commands d i j sid steps (Some jid)) = true).
  { intros before' Hincl. apply IH.
    - eapply existsb_incl; [exact Hincl|]. now apply existsb_app_l.
    - intros st Hst. eapply existsb_incl; [exact Hincl|].
      apply existsb_app_l. apply Ht. now right.
    - eapply existsb_incl; [exact Hincl | exact Hj]. }
  destruct (truthy previous) eqn:Etruthy; [destruct previous as [p|]|].
  - cbn [app ordered_from resolves].
    rewrite !existsb_app_l by (try exact Hj; now apply existsb_app_l).
    cbn [andb]. apply Hrest.
    intros c Hc. apply in_or_app. left. apply in_or_app. now left.
  - discriminate.
  - cbn [app]. apply Hrest. intros c Hc. apply in_or_app. now left.
Qed.

Hypothesis Hvalid : valid d.

Lemma ordered_session_commands (i j : nat) (user_id : string) (before : list command) :
  tools_created before ->
  ordered_from before (session_commands d i user_id j) = true.
Proof.
  intros Htools. unfold session_commands. cbn [ordered_from resolves andb].
  apply ordered_job_commands.
  - apply existsb_app_r. simpl. now rewrite String.eqb_refl.
  - intros st Hst. apply existsb_app_l. apply Htools.
    destruct Hvalid as [_ Hv]. destruct (Hv i j) as (_ & _ & Hincl).
    apply Hincl. unfold steps_of in Hst. destruct st as [k t].
    now apply in_combine_r in Hst.
  - exact I.
Qed.

Lemma ordered_user_commands (i : nat) (before : list command) :
  tools_created before ->
  ordered_from before (user_commands d i) = true.
Proof.
  intros Htools. unfold user_commands. cbn [ordered_from resolves andb].
  apply ordered_from_flat_map. intros j before' Hincl _.
  apply ordered_session_commands. intros t Ht.
  eapply existsb_incl; [exact Hincl|]. apply existsb_app_l. now apply Htools.
Qed.

Lemma ordered_cypher_commands : ordered_from [] (cypher_commands d) = true.
Proof.
  unfold cypher_commands. cbn [ordered_from resolves andb app].
  rewrite ordered_from_app, ordered_from_merge_tools. cbn [andb].
  apply ordered_from_flat_map. intros i before' Hincl _.
  apply ordered_user_commands. intros t Ht.
  eapply existsb_incl; [exact Hincl|]. apply existsb_app_r.
  apply existsb_exists. exists (MergeTool t). split.
  - now apply in_map.
  - simpl. apply String.eqb_refl.
Qed.

Lemma length_job_commands (i j : nat) (sid : string) (steps : list (nat * string))
      (k0 : nat) :
  List.length (job_commands d i j sid steps
                 (Some (String.append "job_" (job_hex d i j k0))))
  = (3 * List.length steps)%nat.
Proof.
  revert k0. induction steps as [|[k t] steps IH]; intros k0; [reflexivity|].
  cbn [job_commands].
  change (truthy (Some (String.append "job_" (job_hex d i j k0)))) with true.
  cbn [app List.length]. rewrite IH. lia.
Qed.

Lemma length_session_commands (i j : nat) (user_id : string) :
  List.length (session_commands d i user_id j)
  = (3 * List.length (session_tools d i j))%nat.
Proof.
  destruct Hvalid as [_ Hv]. destruct (Hv i j) as (Hlen & _ & _).
  unfold MIN_STEPS_PER_SESSION in Hlen.
  unfold session_commands, steps_of.
  destruct (session_tools d i j) as [|t ts]; [simpl in Hlen; lia|].
  cbn [List.length seq combine job_commands truthy app].
  rewrite length_job_commands, length_combine, length_seq. lia.
Qed.

Lemma list_sum_map_mul (c : nat) {A} (f : A -> nat) (l : list A) :
  list_sum (map (fun x => c * f x)%nat l) = (c * list_sum (map f l))%nat.
Proof. induction l as [|x l IH]; simpl; [lia|]. rewrite IH. lia. Qed.

Lemma list_sum_map_succ {A} (f : A -> nat) (l : list A) :
  list_sum (map (fun x => S (f x)) l) = (List.length l + list_sum (map f l))%nat.
Proof. induction l as [|x l IH]; simpl; [lia|]. rewrite IH. lia. Qed.

Lemma list_sum_bounds {A} (f : A -> nat) (lo hi : nat) (l : list A) :
  (forall x, (lo <= f x <= hi)%nat) ->
  (lo * List.length l <= list_sum (map f l) <= hi * List.length l)%nat.
Proof.
  intros H. induction l as [|x l IH]; simpl; [lia|]. specialize (H x). lia.
Qed.

Lemma length_user_commands (i : nat) :
  List.length (user_commands d i)
  = S (3 * list_sum (map (fun j => List.length (session_tools d i j))
                         (seq 0 (NUM_SESSIONS_PER_USER d))))%nat.
Proof.
  unfold user_commands. cbn [List.length]. f_equal.
  rewrite length_flat_map, <- list_sum_map_mul. f_equal.
  apply map_ext. intros j. apply length_session_commands.
Qed.

Lemma length_cypher_commands :
  List.length (cypher_commands d) = (36 + 3 * total_jobs d)%nat.
Proof.
  unfold cypher_commands, total_jobs. cbn [List.length].
  rewrite length_app, length_map, length_flat_map.
  rewrite (map_ext _ _ length_user_commands).
  rewrite list_sum_map_succ, list_sum_map_mul, length_seq.
  unfold NUM_USERS. simpl List.length. lia.
Qed.

End SeederOrder.

(** X16.  The seeder's script is ordered so that every [MATCH] finds its
    node: each job statement comes after the [MERGE] of its session, each
    [EXECUTED] statement after the creation of its job and the [MERGE] of
    its tool, and each [PRECEDES] statement after the creation of both
    jobs. *)
Theorem seeded_script_matches_resolve (d : seeder.Draws) :
  seeder.valid d ->
  seeder.ordered_from [] (seeder.cypher_commands d) = true.
Proof.
  intros Hvalid. now apply ordered_cypher_commands.
Qed.

Lemma seeded_script_matches_resolve_witness :
  seeder.ordered_from [] (seeder.cypher_commands seeder.sample_draws) = true.
Proof.
  apply (seeded_script_matches_resolve seeder.sample_draws).
  exact sample_draws_valid.
Defined.

(** X17.  The seeder's script has 36 statements plus three per job: the
    galaxy, the 25 tools and the 10 users, then for every session its own
    [MERGE] and, for its [n] jobs, [n] creations, [n] [EXECUTED] links and
    [n - 1] [PRECEDES] links. *)
Theorem seeded_script_length (d : seeder.Draws) :
  seeder.valid d ->
  List.length (seeder.cypher_commands d) = (36 + 3 * seeder.total_jobs d)%nat
  /\ (216 <= List.length (seeder.cypher_commands d) <= 1236)%nat.
Proof.
  intros Hvalid.
  pose proof (length_cypher_commands d Hvalid) as E.
  split; [exact E|]. rewrite E.
  destruct Hvalid as [Hn Hv]. unfold seeder.total_jobs, seeder.NUM_USERS.
  set (n := seeder.NUM_SESSIONS_PER_USER d) in *.
  pose proof (list_sum_bounds
                (fun i => list_sum (map (fun j => List.length (seeder.session_tools d i j))
                                        (seq 0 n)))
                (3 * n) (8 * n) (seq 0 10)) as Husers.
  rewrite length_seq in Husers.
  assert (Hsess : forall i,
            (3 * n <= list_sum (map (fun j => List.length (seeder.session_tools d i j))
                                    (seq 0 n)) <= 8 * n)%nat).
  { intros i.
    pose proof (list_sum_bounds (fun j => List.length (seeder.session_tools d i j))
                                3 8 (seq 0 n)) as H.
    rewrite length_seq in H. apply H. intros j.
    destruct (Hv i j) as (Hlen & _ & _).
    unfold seeder.MIN_STEPS_PER_SESSION, seeder.MAX_STEPS_PER_SESSION in Hlen. lia. }
  specialize (Husers Hsess). nia.
Qed.

Lemma seeded_script_length_witness :
  List.length (seeder.cypher_commands seeder.sample_draws)
  = (36 + 3 * seeder.total_jobs seeder.sample_draws)%nat
  /\ (216 <= List.length (seeder.cypher_commands seeder.sample_draws) <= 1236)%nat.
Proof.
  apply (seeded_script_length seeder.sample_draws).
  exact sample_draws_valid.
Defined.
